(** * Keypoint matching and RANSAC homography estimation (assignment4/solution.py)

    A shallow embedding of the five functions of [solution.py] and the
    properties claimed about them.

    - numpy's [float64] and Python's [float] are IEEE 754 binary64 numbers:
      they are Rocq's primitive floats, whose operations are specified by
      [FloatAxioms] over [SpecFloat].
    - A Python exception is a value of [exn]; a computation that may raise
      returns a [result].
    - [random.sample], [math.acos] and [cv2.findHomography] are library
      code outside the repository.  The positions picked by [random.sample]
      are an explicit argument (the random draw), the value table of [acos]
      and the homography solver are parameters. *)

From Stdlib Require Import ZArith Bool List Lia PeanoNat Sorted Permutation.
From Stdlib Require Import Floats.
Import ListNotations.


(* ================================================================== *)
(** * Python results *)

Inductive exn : Type :=
| ValueError          (* random.sample / math.acos / np.dot shape mismatch *)
| IndexError          (* list or array subscript out of range *)
| AssertionError      (* a failed [assert] *)
| ZeroDivisionError   (* Python float division by zero *)
| CvError.            (* cv2.error raised by the homography solver *)

Inductive result (A : Type) : Type :=
| Ok (a : A)
| Raise (e : exn).

Arguments Ok {A} a.
Arguments Raise {A} e.

Definition bind {A B} (r : result A) (k : A -> result B) : result B :=
  match r with
  | Ok a => k a
  | Raise e => Raise e
  end.

Notation "x <- c ;; k" := (bind c (fun x => k))
  (at level 61, c at next level, right associativity).

Definition assert_ (b : bool) : result unit :=
  if b then Ok tt else Raise AssertionError.

(** [[f(x) for x in xs]], stopping at the first exception. *)
Fixpoint mapM {A B} (f : A -> result B) (xs : list A) : result (list B) :=
  match xs with
  | [] => Ok []
  | x :: xs' => y <- f x ;; ys <- mapM f xs' ;; Ok (y :: ys)
  end.

(** A loop that appends to a list under a condition that may raise. *)
Fixpoint filterM {A} (f : A -> result bool) (xs : list A) : result (list A) :=
  match xs with
  | [] => Ok []
  | x :: xs' =>
      b <- f x ;; ys <- filterM f xs' ;; Ok (if b then x :: ys else ys)
  end.

Definition is_ok {A} (r : result A) : bool :=
  match r with Ok _ => true | Raise _ => false end.

(** Subscript of a Python list by a non-negative position. *)
Definition py_index {A} (l : list A) (i : nat) : result A :=
  match nth_error l i with
  | Some a => Ok a
  | None => Raise IndexError
  end.

(** Subscript of the first axis of a numpy array by a Python integer:
    [-n <= i < n] is accepted, negative positions count from the end. *)
Definition np_index {A} (l : list A) (i : Z) : result A :=
  let n := Z.of_nat (length l) in
  if (0 <=? i)%Z then py_index l (Z.to_nat i)
  else if (- n <=? i)%Z then py_index l (Z.to_nat (n + i))
  else Raise IndexError.

(* ================================================================== *)
(** * Data model *)

(** One row of a keypoint array of shape [(num_pts, 4)]:
    row, col, scale, orientation. *)
Record keypoint : Type := Keypoint
  { kp_row : float; kp_col : float; kp_scale : float; kp_orientation : float }.

(** A match [(i, j)]: [keypoints1[i]] is matched with [keypoints2[j]]. *)
Definition match_pair : Type := (Z * Z)%type.

(** A row of an [(n, 2)] coordinate array. *)
Definition point : Type := (float * float)%type.

(** A [(3, 3)] array, row by row. *)
Definition matrix : Type :=
  ((float * float * float) * (float * float * float) * (float * float * float))%type.

Definition identity3 : matrix :=
  ((1, 0, 0), (0, 1, 0), (0, 0, 1))%float.

(** A descriptor is one row of a K-by-128 array. *)
Definition descriptor : Type := list float.

(* ================================================================== *)
(** * Library calls *)

(** ** random.sample

    [random.sample(population, k)] raises [ValueError] when [k] exceeds
    the population, and otherwise returns the elements at [k] distinct
    positions.  Which positions is the random draw: it is the argument
    [draw].  [valid_draw n k draw] says that [draw] is a possible outcome
    for a population of [n]. *)

Definition pick {A} (population : list A) (draw : list nat) : list A :=
  flat_map (fun p => match nth_error population p with
                     | Some a => [a]
                     | None => []
                     end) draw.

Definition random_sample {A} (draw : list nat) (population : list A) (k : nat)
  : result (list A) :=
  if (length population <? k)%nat then Raise ValueError
  else Ok (pick population draw).

Fixpoint distinct (l : list nat) : bool :=
  match l with
  | [] => true
  | x :: l' => negb (existsb (Nat.eqb x) l') && distinct l'
  end.

Definition valid_draw (n k : nat) (draw : list nat) : bool :=
  (length draw =? k)%nat && forallb (fun p => (p <? n)%nat) draw && distinct draw.

(** ** np.dot of two 1-D arrays

    [ValueError] when the shapes are not aligned; the products are summed
    from the left.  numpy does not fix the order of the summation, and
    another order may round to a neighbouring float; the results below take
    the computed value as given, or use vectors whose products are exact. *)

Definition dot_value (a b : list float) : float :=
  fold_left (fun acc xy => (acc + fst xy * snd xy)%float) (combine a b) 0%float.

Definition np_dot (a b : list float) : result float :=
  if (length a =? length b)%nat then Ok (dot_value a b) else Raise ValueError.

(** ** np.linalg.norm of a 2-vector: [sqrt(dot(v, v))]. *)

Definition np_linalg_norm (v : point) : float :=
  sqrt (fst v * fst v + snd v * snd v)%float.

Definition point_sub (p q : point) : point :=
  (fst p - fst q, snd p - snd q)%float.

(** ** sorted(..., key=...)

    The keys are computed once, in order, before any comparison; the sort
    is stable and compares keys with [<] only.  Each element is inserted
    after the elements already placed that it is not smaller than.  With a
    NaN among the keys [<] is no order and Python's sort may leave the list
    in another arrangement; the results below on the order of the sorted
    list are for keys that are numbers. *)

Fixpoint insert_by_key {A} (x : float * A) (l : list (float * A)) : list (float * A) :=
  match l with
  | [] => [x]
  | y :: l' => if (fst x <? fst y)%float then x :: y :: l'
               else y :: insert_by_key x l'
  end.

Definition sort_keyed {A} (l : list (float * A)) : list (float * A) :=
  fold_left (fun acc x => insert_by_key x acc) l [].

Definition sorted {A} (key : A -> result float) (l : list A) : result (list A) :=
  keys <- mapM key l ;;
  Ok (map snd (sort_keyed (combine keys l))).

(** [enumerate(l)] *)
Definition enumerate {A} (l : list A) : list (nat * A) :=
  combine (seq 0 (length l)) l.

(* ================================================================== *)
(** * The functions of solution.py *)

Section Solution.

(** The value computed by the C library's [acos]. *)
Variable acos : float -> float.

(** [cv2.findHomography(src, ref)[0]]: a 3x3 matrix, [None] when the
    solver finds no model, or a raised [cv2.error]. *)
Variable findHomography : list point -> list point -> result (option matrix).

(** ** math.acos

    CPython reports a domain error when the library returns a NaN for an
    argument that is not one, or an infinity for a finite argument. *)
Definition math_acos (x : float) : result float :=
  let r := acos x in
  if is_nan r && negb (is_nan x) then Raise ValueError
  else if is_infinity r && is_finite x then Raise ValueError
  else Ok r.

(** ** RANSACFilter *)

(** [keypoints1[m[0]]] and [keypoints2[m[1]]]. *)
Definition match_rows (keypoints1 keypoints2 : list keypoint) (m : match_pair)
  : result (keypoint * keypoint) :=
  k1 <- np_index keypoints1 (fst m) ;;
  k2 <- np_index keypoints2 (snd m) ;;
  Ok (k1, k2).

(** The condition of line 41. *)
Definition agrees (orient_agreement scale_agreement base_orientation base_scale : float)
           (k : keypoint * keypoint) : bool :=
  (abs (kp_orientation (fst k) - kp_orientation (snd k) - base_orientation)
     <=? orient_agreement)%float
  && (abs (kp_scale (fst k) / kp_scale (snd k) - base_scale)
        <=? scale_agreement)%float.

(** Lines 37 to 42: the consensus set of one sampled match. *)
Definition consensus_set (matched_pairs : list match_pair)
           (keypoints1 keypoints2 : list keypoint)
           (orient_agreement scale_agreement : float)
           (selection : match_pair) : result (list match_pair) :=
  s <- match_rows keypoints1 keypoints2 selection ;;
  let base_orientation := (kp_orientation (fst s) - kp_orientation (snd s))%float in
  let base_scale := (kp_scale (fst s) / kp_scale (snd s))%float in
  filterM (fun m =>
             k <- match_rows keypoints1 keypoints2 m ;;
             Ok (agrees orient_agreement scale_agreement base_orientation base_scale k))
          matched_pairs.

(** Lines 43 and 44. *)
Definition keep_larger {A} (largest_set current_set : list A) : list A :=
  if (length largest_set <? length current_set)%nat then current_set
  else largest_set.

(** The loop of line 36 over the sampled matches. *)
Fixpoint filter_loop (matched_pairs : list match_pair)
         (keypoints1 keypoints2 : list keypoint)
         (orient_agreement scale_agreement : float)
         (random_selections : list match_pair) (largest_set : list match_pair)
  : result (list match_pair) :=
  match random_selections with
  | [] => Ok largest_set
  | selection :: rest =>
      current_set <- consensus_set matched_pairs keypoints1 keypoints2
                                   orient_agreement scale_agreement selection ;;
      filter_loop matched_pairs keypoints1 keypoints2
                  orient_agreement scale_agreement rest
                  (keep_larger largest_set current_set)
  end.

Definition RANSACFilter (draw : list nat) (matched_pairs : list match_pair)
           (keypoints1 keypoints2 : list keypoint)
           (orient_agreement scale_agreement : float) : result (list match_pair) :=
  random_selections <- random_sample draw matched_pairs 10 ;;
  filter_loop matched_pairs keypoints1 keypoints2
              orient_agreement scale_agreement random_selections [].

(** ** FindBestMatches *)

(** The sort key of line 76: [math.acos(np.dot(d1, d2))]. *)
Definition angular_distance (d1 d2 : descriptor) : result float :=
  x <- np_dot d1 d2 ;; math_acos x.

(** Python's [/] on two floats. *)
Definition float_div (a b : float) : result float :=
  if (b =? 0)%float then Raise ZeroDivisionError else Ok (a / b)%float.

(** Lines 76 to 78 for one descriptor of image 1: the matches appended. *)
Definition match_row (descriptors2 : list descriptor) (threshold : float)
           (i : nat) (d1 : descriptor) : result (list match_pair) :=
  descriptors2_sorted <-
    sorted (fun d2 => angular_distance d1 (snd d2)) (enumerate descriptors2) ;;
  best <- py_index descriptors2_sorted 0 ;;
  a0 <- angular_distance d1 (snd best) ;;
  second <- py_index descriptors2_sorted 1 ;;
  a1 <- angular_distance d1 (snd second) ;;
  ratio <- float_div a0 a1 ;;
  Ok (if (ratio <=? threshold)%float
      then [(Z.of_nat i, Z.of_nat (fst best))]
      else []).

(** The loop of line 75. *)
Fixpoint match_loop (descriptors2 : list descriptor) (threshold : float)
         (rows : list (nat * descriptor)) : result (list match_pair) :=
  match rows with
  | [] => Ok []
  | (i, d1) :: rest =>
      new <- match_row descriptors2 threshold i d1 ;;
      later <- match_loop descriptors2 threshold rest ;;
      Ok (new ++ later)
  end.

Definition FindBestMatches (descriptors1 descriptors2 : list descriptor)
           (threshold : float) : result (list match_pair) :=
  match_loop descriptors2 threshold (enumerate descriptors1).

(** ** KeypointProjection *)

(** One column of [np.dot(h, homogeneous_points.T)], its three products
    summed from the left; as for [dot_value], numpy does not fix that
    order. *)
Definition project_homogeneous (h : matrix) (p : point) : float * float * float :=
  let '((h00, h01, h02), (h10, h11, h12), (h20, h21, h22)) := h in
  let '(x, y) := p in
  (h00 * x + h01 * y + h02 * 1,
   h10 * x + h11 * y + h12 * 1,
   h20 * x + h21 * y + h22 * 1)%float.

(** [h] is what the caller passes: [None] fails [isinstance(h, np.ndarray)]. *)
Definition KeypointProjection (xy_points : list point) (h : option matrix)
  : result (list point) :=
  match h with
  | None => Raise AssertionError
  | Some m =>
      Ok (map (fun p => let '(x', y', w') := project_homogeneous m p in
                        (x' / w', y' / w')%float) xy_points)
  end.

(** ** RANSACHomography *)

(** [arr[idx]] for a list of positions. *)
Definition take_rows {A} (arr : list A) (idx : list nat) : result (list A) :=
  mapM (py_index arr) idx.

(** Lines 139 to 142. *)
Definition inlier_set (xy_src xy_ref projected_points : list point) (tol : float)
  : result (list nat) :=
  filterM (fun j =>
             r <- py_index xy_ref j ;;
             p <- py_index projected_points j ;;
             Ok (np_linalg_norm (point_sub r p) <=? tol)%float)
          (seq 0 (length xy_src)).

(** Lines 136 to 142: one iteration, up to its inlier set.  [draw] is the
    outcome of this iteration's [random.sample]. *)
Definition iteration (draw : list nat) (xy_src xy_ref : list point) (tol : float)
  : result (list nat) :=
  random_selections <- random_sample draw (seq 0 (length xy_src)) 4 ;;
  src4 <- take_rows xy_src random_selections ;;
  ref4 <- take_rows xy_ref random_selections ;;
  h <- findHomography src4 ref4 ;;
  projected_points <- KeypointProjection xy_src h ;;
  inlier_set xy_src xy_ref projected_points tol.

(** The loop of line 135; [draws i] is the draw of iteration [i]. *)
Fixpoint homography_loop (draws : nat -> list nat) (xy_src xy_ref : list point)
         (tol : float) (iterations : list nat) (largest_set : list nat)
  : result (list nat) :=
  match iterations with
  | [] => Ok largest_set
  | i :: rest =>
      current_set <- iteration (draws i) xy_src xy_ref tol ;;
      homography_loop draws xy_src xy_ref tol rest
                      (keep_larger largest_set current_set)
  end.

(** Line 145 and the two assertions after it. *)
Definition refit (xy_src xy_ref : list point) (largest_set : list nat)
  : result matrix :=
  src <- take_rows xy_src largest_set ;;
  ref <- take_rows xy_ref largest_set ;;
  h <- findHomography src ref ;;
  match h with
  | Some m => Ok m
  | None => Raise AssertionError
  end.

Definition RANSACHomography (draws : nat -> list nat) (xy_src xy_ref : list point)
           (num_iter : Z) (tol : float) : result matrix :=
  _ <- assert_ (length xy_src =? length xy_ref)%nat ;;
  let tol := (tol * 1)%float in
  largest_set <- homography_loop draws xy_src xy_ref tol
                                 (seq 0 (Z.to_nat num_iter)) [] ;;
  refit xy_src xy_ref largest_set.

(** ** FindBestMatchesRANSAC *)

Definition FindBestMatchesRANSAC (draw : list nat)
           (keypoints1 keypoints2 : list keypoint)
           (descriptors1 descriptors2 : list descriptor)
           (threshold orient_agreement scale_agreement : float)
  : result (list match_pair) :=
  matched_pairs <- FindBestMatches descriptors1 descriptors2 threshold ;;
  RANSACFilter draw matched_pairs keypoints1 keypoints2
               orient_agreement scale_agreement.

End Solution.

(* ================================================================== *)
(** * Vocabulary of the claims *)

(** ** Projection *)

(** Both coordinates are real numbers: neither infinite nor NaN. *)
Definition finite_point (p : point) : bool :=
  is_finite (fst p) && is_finite (snd p).

(** The number [x'] is the number [x]: equal as floats, and the same float
    unless [x] is the negative zero. *)
Definition same_number (x x' : float) : Prop :=
  (x' =? x)%float = true /\ (x <> neg_zero -> x' = x).

(** The point [q] is the point [p], coordinate by coordinate. *)
Definition same_point (p q : point) : Prop :=
  same_number (fst p) (fst q) /\ same_number (snd p) (snd q).

(** The same float, or two zeros (of either sign). *)
Definition same_value (a b : float) : Prop :=
  a = b \/ (is_zero a = true /\ is_zero b = true).

(** ** Consensus filter *)

(** The rows of a match exist and its orientation difference and scale
    ratio are finite numbers. *)
Definition finite_match (keypoints1 keypoints2 : list keypoint) (m : match_pair) : bool :=
  match match_rows keypoints1 keypoints2 m with
  | Ok k => is_finite (kp_orientation (fst k) - kp_orientation (snd k))
            && is_finite (kp_scale (fst k) / kp_scale (snd k))
  | Raise _ => false
  end.

(** Two runs agree on failure, and the second result is at least as long. *)
Definition no_shorter {A} (r1 r2 : result (list A)) : Prop :=
  match r1, r2 with
  | Ok s1, Ok s2 => length s1 <= length s2
  | Raise e1, Raise e2 => e1 = e2
  | _, _ => False
  end.

(** Two runs agree on failure, and the second result contains the first. *)
Definition contained {A} (r1 r2 : result (list A)) : Prop :=
  match r1, r2 with
  | Ok s1, Ok s2 => length s1 <= length s2 /\ forall x, In x s1 -> In x s2
  | Raise e1, Raise e2 => e1 = e2
  | _, _ => False
  end.

(** The rows of every match exist. *)
Definition rows_exist (keypoints1 keypoints2 : list keypoint)
           (matched_pairs : list match_pair) : bool :=
  forallb (fun m => is_ok (match_rows keypoints1 keypoints2 m)) matched_pairs.

(** [l1] is [l2] with some elements left out, the others in their order. *)
Inductive subseq {A : Type} : list A -> list A -> Prop :=
| subseq_nil : subseq [] []
| subseq_skip x l1 l2 : subseq l1 l2 -> subseq l1 (x :: l2)
| subseq_keep x l1 l2 : subseq l1 l2 -> subseq (x :: l1) (x :: l2).

(** [best] is the first of the longest lists of [sets], or empty when they
    all are. *)
Definition first_longest {A} (sets : list (list A)) (best : list A) : Prop :=
  (best = [] /\ forall s, In s sets -> s = []) \/
  exists before after,
    sets = before ++ best :: after /\
    (forall s, In s before -> length s < length best) /\
    (forall s, In s after -> length s <= length best).

(** ** Homography estimator *)

(** Row [j] of a coordinate array. *)
Definition nth_point (arr : list point) (j : nat) : point := nth j arr (0, 0)%float.






(** ** Descriptor matcher *)

(** The angular distances from [d1] to the descriptors of image 2. *)
Definition distances (acos : float -> float) (d1 : descriptor)
           (descriptors2 : list descriptor) : list float :=
  map (fun d2 => acos (dot_value d1 d2)) descriptors2.

(** The distance to the descriptor at position [j]. *)
Definition dist_at (ds : list float) (j : nat) : float := nth j ds nan.

(** Position [a] precedes position [b]: it is strictly closer, or not
    farther and earlier in the array. *)
Definition precedes (ds : list float) (a b : nat) : Prop :=
  (dist_at ds a <? dist_at ds b)%float = true \/
  ((dist_at ds b <? dist_at ds a)%float = false /\ a < b).

(** [j] is the position of the nearest neighbour. *)
Definition nearest (ds : list float) (j : nat) : Prop :=
  j < length ds /\
  forall k, k < length ds -> k <> j -> precedes ds j k.

(** [j2] is the position of the nearest neighbour once [j] is set aside. *)
Definition second_nearest (ds : list float) (j j2 : nat) : Prop :=
  j2 < length ds /\ j2 <> j /\
  forall k, k < length ds -> k <> j -> k <> j2 -> precedes ds j2 k.

(** The distance from [d1] to [d2] is computed without error and is a
    number. *)
Definition defined_distance (acos : float -> float) (d1 d2 : descriptor) : bool :=
  match angular_distance acos d1 d2 with
  | Ok a => negb (is_nan a)
  | Raise _ => false
  end.




(** No distance from [d1] is negative. *)
Definition no_negative_distance (acos : float -> float) (d1 : descriptor)
           (descriptors2 : list descriptor) : bool :=
  forallb (fun a => negb (a <? 0)%float) (distances acos d1 descriptors2).

(** ** Binary64 numbers *)

(** The order of the numbers, read off the IEEE 754 representation: sign
    class first, then exponent, then mantissa. *)
Definition sf_rank (s : spec_float) : Z * Z * Z :=
  match s with
  | S754_nan => (0, 0, 0)
  | S754_zero _ => (0, 0, 0)
  | S754_infinity true => (-2, 0, 0)
  | S754_infinity false => (2, 0, 0)
  | S754_finite true m e => (-1, - e, Z.neg m)
  | S754_finite false m e => (1, e, Z.pos m)
  end%Z.

Definition rank_lt (a b : Z * Z * Z) : Prop :=
  let '(a1, a2, a3) := a in
  let '(b1, b2, b3) := b in
  (a1 < b1 \/ (a1 = b1 /\ (a2 < b2 \/ (a2 = b2 /\ a3 < b3))))%Z.

Definition sf_nan (s : spec_float) : bool :=
  match s with S754_nan => true | _ => false end.

Definition frank (x : float) : Z * Z * Z := sf_rank (Prim2SF x).

Definition sf_finite (s : spec_float) : bool :=
  match s with
  | S754_zero _ | S754_finite _ _ _ => true
  | _ => false
  end.

Definition sf_one : spec_float := S754_finite false 4503599627370496 (-52).

(** [x + 0] is [x], except that it turns [-0] into [+0]. *)
Definition sf_plus_zero (X : spec_float) : spec_float :=
  match X with
  | S754_zero _ => S754_zero false
  | _ => X
  end.

(** Not finite, and not the negative infinity: NaN or [+inf]. *)
Definition sf_nan_or_inf (X : spec_float) : bool :=
  match X with
  | S754_nan | S754_infinity false => true
  | _ => false
  end.

(** ** Sorting *)

(** [x] is listed before [y] by the stable sort: its key is smaller, or it
    is not larger and [x] had the earlier place. *)
Definition listed_before {A} (place : A -> nat) (x y : float * A) : Prop :=
  (fst x <? fst y)%float = true \/
  ((fst y <? fst x)%float = false /\ place (snd x) < place (snd y)).

(* ================================================================== *)
(** * Example inputs *)

(** ** Keypoints and matches *)

(** Twelve matches [(k, k)].  The orientations differ by 30 throughout; the
    scale ratio is 2 for the first nine matches and 0.5 for the last three. *)
Definition example_keypoints1 : list keypoint :=
  map (fun k => Keypoint k k 2 (30 + k)%float) [0; 1; 2; 3; 4; 5; 6; 7; 8; 9; 10; 11]%float.

Definition example_keypoints2 : list keypoint :=
  map (fun k => Keypoint (k + 5) (k + 7) (if (k <? 9)%float then 1 else 4) k%float)
      [0; 1; 2; 3; 4; 5; 6; 7; 8; 9; 10; 11]%float.

Definition example_matches : list match_pair :=
  map (fun k => (k, k)) [0; 1; 2; 3; 4; 5; 6; 7; 8; 9; 10; 11]%Z.

Definition example_draw : list nat := [11; 3; 7; 0; 5; 9; 1; 10; 4; 2].

(** Keypoints of scale [1e200] and [1e-200] (written in hexadecimal as
    binary64 stores them): the scale ratio overflows to [inf]. *)
Definition huge_keypoints : list keypoint :=
  map (fun k => Keypoint k k 0x1.4e718d7d7625ap+664 0%float) [0; 1; 2; 3; 4; 5; 6; 7; 8; 9]%float.

Definition tiny_keypoints : list keypoint :=
  map (fun k => Keypoint k k 0x1.87e92154ef7acp-665 0%float) [0; 1; 2; 3; 4; 5; 6; 7; 8; 9]%float.

Definition ten_matches : list match_pair :=
  map (fun k => (k, k)) [0; 1; 2; 3; 4; 5; 6; 7; 8; 9]%Z.

Definition ten_draw : list nat := [0; 1; 2; 3; 4; 5; 6; 7; 8; 9].

(** ** A stand-in homography solver and point correspondences *)

Definition translation (tx ty : float) : matrix :=
  ((1, 0, tx), (0, 1, ty), (0, 0, 1))%float.

Definition point_eqb (p q : point) : bool :=
  (fst p =? fst q)%float && (snd p =? snd q)%float.

(** It fits the translation that carries the first source point to the
    first reference point, whatever the number of points; it finds no model
    when the first source point occurs twice, and raises on empty input. *)
Definition translation_solver (src ref : list point) : result (option matrix) :=
  match src, ref with
  | p :: ps, q :: _ =>
      if existsb (point_eqb p) ps then Ok None
      else Ok (Some (translation (fst q - fst p) (snd q - snd p)))
  | _, _ => Raise CvError
  end.


(** Five correspondences: the first three differ by the translation
    [(1, 1)], the last two do not. *)
Definition example_src : list point := [(0, 0); (1, 0); (0, 1); (1, 1); (2, 2)]%float.
Definition example_ref : list point := [(1, 1); (2, 1); (1, 2); (9, 9); (7, 3)]%float.

(** Six correspondences by the translation [(1, 1)]; the first source
    point occurs twice. *)
Definition repeated_src : list point :=
  [(0, 0); (0, 0); (1, 0); (0, 1); (1, 1); (2, 2)]%float.
Definition repeated_ref : list point :=
  [(1, 1); (1, 1); (2, 1); (1, 2); (2, 2); (3, 3)]%float.

(** Six correspondences by the translation [(2, 3)]. *)
Definition shifted_src : list point :=
  [(0, 0); (1, 0); (0, 1); (1, 1); (2, 2); (5, 1)]%float.
Definition shifted_ref : list point :=
  [(2, 3); (3, 3); (2, 4); (3, 4); (4, 5); (7, 4)]%float.

Definition first_four (i : nat) : list nat := [0; 1; 2; 3].

Definition rotating_draws (i : nat) : list nat :=
  match i with
  | 0 => [0; 1; 2; 3]
  | _ => [2; 3; 4; 5]
  end.

Definition degenerate_second (i : nat) : list nat :=
  match i with
  | 1 => [0; 1; 2; 3]
  | _ => [2; 3; 4; 5]
  end.

(** The homography that keeps [x] and [y] and sends every point to [w' = 0]. *)
Definition flattening : matrix := ((1, 0, 0), (0, 1, 0), (0, 0, 0))%float.

(** ** A table of [acos] and descriptors *)

(** The values the C library returns at the arguments the examples use,
    and NaN outside [[-1, 1]] as the library does.  Arguments of the domain
    that are not in the table are answered by NaN. *)
Definition acos_table (x : float) : float :=
  if (x <? -1)%float || (1 <? x)%float then nan
  else if (x =? 1)%float then 0%float
  else if (x =? 0.5)%float then 0x1.0c152382d7366p+0%float   (* 1.0471975511965979 *)
  else if (x =? 0)%float then 0x1.921fb54442d18p+0%float     (* 1.5707963267948966 *)
  else if (x =? -0.5)%float then 0x1.0c152382d7366p+1%float  (* 2.0943951023931957 *)
  else if (x =? -1)%float then 0x1.921fb54442d18p+1%float    (* 3.141592653589793 *)
  else nan.

Definition example_descriptors1 : list descriptor :=
  [[1; 0; 0; 0]; [0.5; 0.5; 0.5; 0.5]; [0; 1; 0; 0]]%float.

Definition example_descriptors2 : list descriptor :=
  [[1; 0; 0; 0]; [0; 1; 0; 0]; [0.5; -0.5; 0.5; -0.5]]%float.


(** [(5/13, 12/13)] as binary64 stores it: its norm is [1.0] and its dot
    product with itself is [1.0000000000000002]. *)
Definition overshoot_descriptor : descriptor :=
  [0x1.89d89d89d89d9p-2; 0x1.d89d89d89d89ep-1]%float.

(** Four pairwise orthogonal descriptors for image 2, and ten descriptors
    for image 1, each a copy of one of the four. *)
Definition basis_descriptors : list descriptor :=
  [[1; 0; 0; 0]; [0; 1; 0; 0]; [0; 0; 1; 0]; [0; 0; 0; 1]]%float.

Definition ten_descriptors : list descriptor :=
  basis_descriptors ++ basis_descriptors ++ firstn 2 basis_descriptors.

(* ================================================================== *)
(** * Facts about binary64 arithmetic *)

Lemma SFcompare_rank x y :
  sf_nan x = false -> sf_nan y = false ->
  (SFcompare x y = Some Lt <-> rank_lt (sf_rank x) (sf_rank y)) /\
  (SFcompare x y = Some Gt <-> rank_lt (sf_rank y) (sf_rank x)) /\
  (SFcompare x y = Some Eq <-> sf_rank x = sf_rank y) /\
  SFcompare x y <> None.
Proof.
  destruct x as [sx|sx| |sx mx ex], y as [sy|sy| |sy my ey];
    try discriminate; intros _ _;
    try (destruct sx); try (destruct sy); simpl;
    try (repeat split; intros; try discriminate; try lia; try congruence; fail).
  - rewrite Pos.compare_cont_spec. simpl.
    destruct (Z.compare_spec ex ey), (Pos.compare_spec mx my); simpl;
      repeat split; intros; try discriminate; try lia; try congruence;
      match goal with H : (_, _, _) = (_, _, _) |- _ => inversion H; lia end.
  - rewrite Pos.compare_cont_spec. simpl.
    destruct (Z.compare_spec ex ey), (Pos.compare_spec mx my); simpl;
      repeat split; intros; try discriminate; try lia; try congruence;
      match goal with H : (_, _, _) = (_, _, _) |- _ => inversion H; lia end.
Qed.

Lemma Prim2SF_nan x : sf_nan (Prim2SF x) = is_nan x.
Proof.
  unfold is_nan. rewrite eqb_spec. unfold SFeqb.
  destruct (Prim2SF x) as [s|s| |s m e] eqn:E; try (destruct s; reflexivity); try reflexivity.
  simpl sf_nan.
  destruct (SFcompare_rank (S754_finite s m e) (S754_finite s m e) eq_refl eq_refl)
    as (_ & _ & H & _).
  rewrite (proj2 H eq_refl). reflexivity.
Qed.

Lemma ltb_rank x y :
  (x <? y)%float = true <->
  is_nan x = false /\ is_nan y = false /\ rank_lt (frank x) (frank y).
Proof.
  rewrite ltb_spec, <- !Prim2SF_nan. unfold SFltb, frank.
  destruct (sf_nan (Prim2SF x)) eqn:Nx.
  { destruct (Prim2SF x); try discriminate. simpl. intuition discriminate. }
  destruct (sf_nan (Prim2SF y)) eqn:Ny.
  { destruct (Prim2SF y); try discriminate.
    destruct (Prim2SF x); simpl; intuition discriminate. }
  destruct (SFcompare_rank _ _ Nx Ny) as (L & G & E & N).
  destruct (SFcompare (Prim2SF x) (Prim2SF y)) as [[]|]; intuition (try discriminate; try congruence).
Qed.

Lemma leb_rank x y :
  (x <=? y)%float = true <->
  is_nan x = false /\ is_nan y = false /\
  (rank_lt (frank x) (frank y) \/ frank x = frank y).
Proof.
  rewrite leb_spec, <- !Prim2SF_nan. unfold SFleb, frank.
  destruct (sf_nan (Prim2SF x)) eqn:Nx.
  { destruct (Prim2SF x); try discriminate. simpl. intuition discriminate. }
  destruct (sf_nan (Prim2SF y)) eqn:Ny.
  { destruct (Prim2SF y); try discriminate.
    destruct (Prim2SF x); simpl; intuition discriminate. }
  destruct (SFcompare_rank _ _ Nx Ny) as (L & G & E & N).
  destruct (SFcompare (Prim2SF x) (Prim2SF y)) as [[]|]; intuition (try discriminate; try congruence).
Qed.

Lemma eqb_rank x y :
  (x =? y)%float = true <->
  is_nan x = false /\ is_nan y = false /\ frank x = frank y.
Proof.
  rewrite eqb_spec, <- !Prim2SF_nan. unfold SFeqb, frank.
  destruct (sf_nan (Prim2SF x)) eqn:Nx.
  { destruct (Prim2SF x); try discriminate. simpl. intuition discriminate. }
  destruct (sf_nan (Prim2SF y)) eqn:Ny.
  { destruct (Prim2SF y); try discriminate.
    destruct (Prim2SF x); simpl; intuition discriminate. }
  destruct (SFcompare_rank _ _ Nx Ny) as (L & G & E & N).
  destruct (SFcompare (Prim2SF x) (Prim2SF y)) as [[]|]; intuition (try discriminate; try congruence).
Qed.

Ltac rank_order :=
  unfold rank_lt in *;
  repeat match goal with
         | x : (Z * Z * Z)%type |- _ => destruct x as [[? ?] ?]
         | H : (_, _, _) = (_, _, _) |- _ => inversion H; clear H; subst
         end;
  try lia.

Lemma rank_lt_trans a b c : rank_lt a b -> rank_lt b c -> rank_lt a c.
Proof. rank_order. Qed.

Lemma rank_lt_irrefl a : ~ rank_lt a a.
Proof. rank_order. Qed.

Lemma rank_total a b : rank_lt a b \/ a = b \/ rank_lt b a.
Proof.
  destruct a as [[a1 a2] a3], b as [[b1 b2] b3]. unfold rank_lt.
  destruct (Z.lt_total a1 b1) as [?|[?|?]]; [lia| |lia].
  destruct (Z.lt_total a2 b2) as [?|[?|?]]; [lia| |lia].
  destruct (Z.lt_total a3 b3) as [?|[?|?]]; [lia| |lia].
  subst. right. left. reflexivity.
Qed.

Lemma ltb_trans x y z :
  (x <? y)%float = true -> (y <? z)%float = true -> (x <? z)%float = true.
Proof.
  rewrite !ltb_rank. intros (? & ? & ?) (? & ? & ?).
  repeat split; auto. eapply rank_lt_trans; eauto.
Qed.

Lemma ltb_asym x y : (x <? y)%float = true -> (y <? x)%float = false.
Proof.
  intros H. destruct (y <? x)%float eqn:E; auto.
  apply ltb_rank in H, E. destruct H as (_ & _ & H), E as (_ & _ & E).
  exfalso; eapply rank_lt_irrefl, rank_lt_trans; eauto.
Qed.

Lemma leb_trans x y z :
  (x <=? y)%float = true -> (y <=? z)%float = true -> (x <=? z)%float = true.
Proof.
  rewrite !leb_rank. intros (? & ? & H1) (? & ? & H2).
  repeat split; auto.
  destruct H1 as [H1|H1], H2 as [H2|H2].
  - left. eapply rank_lt_trans; eauto.
  - left. rewrite <- H2. assumption.
  - left. rewrite H1. assumption.
  - right. congruence.
Qed.

(** Among numbers, [not (y < x)] is [x <= y]. *)
Lemma not_ltb_leb x y :
  is_nan x = false -> is_nan y = false ->
  (y <? x)%float = false -> (x <=? y)%float = true.
Proof.
  intros Nx Ny H. apply leb_rank. repeat split; auto.
  destruct (rank_total (frank x) (frank y)) as [?|[?|L]]; auto.
  assert ((y <? x)%float = true) by (apply ltb_rank; auto).
  congruence.
Qed.

Lemma ltb_leb_trans x y z :
  (x <? y)%float = true -> (y <=? z)%float = true -> (x <? z)%float = true.
Proof.
  rewrite !ltb_rank, leb_rank. intros (? & ? & H1) (? & ? & [H2|H2]);
    repeat split; auto.
  - eapply rank_lt_trans; eauto.
  - rewrite <- H2. assumption.
Qed.

Lemma ltb_is_nan x y : (x <? y)%float = true -> is_nan x = false /\ is_nan y = false.
Proof. rewrite ltb_rank. tauto. Qed.

Lemma leb_is_nan x y : (x <=? y)%float = true -> is_nan x = false /\ is_nan y = false.
Proof. rewrite leb_rank. tauto. Qed.

(** ** Finite numbers *)

Lemma is_finite_spec x : is_finite x = sf_finite (Prim2SF x).
Proof.
  unfold is_finite, is_infinity. rewrite <- Prim2SF_nan.
  rewrite eqb_spec, abs_spec. unfold SFeqb.
  change (Prim2SF infinity) with (S754_infinity false).
  destruct (Prim2SF x) as [[]|[]| |[] m e]; reflexivity.
Qed.

(** [x - x] is [+0] for every finite [x]. *)
Lemma sub_diag x : is_finite x = true -> (x - x)%float = zero.
Proof.
  rewrite is_finite_spec. intros H.
  apply Prim2SF_inj. rewrite sub_spec.
  change (Prim2SF zero) with (S754_zero false).
  destruct (Prim2SF x) as [[]|[]| |s m e]; simpl in H; try discriminate; try reflexivity.
  unfold SF64sub, SFsub.
  rewrite Z.min_id. unfold shl_align. rewrite !Z.sub_diag. reflexivity.
Qed.

(** ** Rounding a number that is already representable *)

Lemma digits2_shiftl m k :
  digits2_pos (Pos.shiftl_nat m k) = (digits2_pos m + Pos.of_succ_nat k - 1)%positive.
Proof.
  induction k as [|k IH]; simpl.
  - lia.
  - rewrite IH. lia.
Qed.

Lemma iter_pos_nat {A} (f : A -> A) p x :
  iter_pos f p x = Nat.iter (Pos.to_nat p) f x.
Proof.
  revert x. induction p as [p IH|p IH|]; intros x; cbn [iter_pos].
  - rewrite !IH, Pos2Nat.inj_xI.
    replace (S (2 * Pos.to_nat p)) with (Pos.to_nat p + S (Pos.to_nat p))%nat by lia.
    rewrite Nat.iter_add, Nat.iter_succ_r. reflexivity.
  - rewrite !IH, Pos2Nat.inj_xO.
    replace (2 * Pos.to_nat p)%nat with (Pos.to_nat p + Pos.to_nat p)%nat by lia.
    rewrite Nat.iter_add. reflexivity.
  - reflexivity.
Qed.

Lemma shr_1_shiftl m k :
  Nat.iter k shr_1 (Build_shr_record (Zpos (Pos.shiftl_nat m k)) false false)
  = Build_shr_record (Zpos m) false false.
Proof.
  induction k as [|k IH].
  - reflexivity.
  - rewrite Nat.iter_succ_r. simpl. exact IH.
Qed.

Lemma bounded_canonical m e :
  bounded prec emax m e = true ->
  fexp prec emax (Zpos (digits2_pos m) + e) = e /\ (e <=? emax - prec)%Z = true.
Proof.
  unfold bounded, canonical_mantissa. intros H.
  apply andb_true_iff in H. destruct H as [H1 H2].
  apply Z.eqb_eq in H1. auto.
Qed.

Lemma shr_exact m e k :
  fexp prec emax (Zpos (digits2_pos m) + e) = e ->
  shr_fexp prec emax (Zpos (Pos.shiftl_nat m k)) (e - Z.of_nat k) loc_Exact
  = (Build_shr_record (Zpos m) false false, e).
Proof.
  intros C. unfold shr_fexp. cbn [Zdigits2 shr_record_of_loc].
  rewrite digits2_shiftl.
  replace (Zpos (digits2_pos m + Pos.of_succ_nat k - 1) + (e - Z.of_nat k))%Z
    with (Zpos (digits2_pos m) + e)%Z by lia.
  rewrite C.
  replace (e - (e - Z.of_nat k))%Z with (Z.of_nat k) by lia.
  destruct k as [|k].
  - cbn [Z.of_nat shr Pos.shiftl_nat Nat.iter nat_rect]. f_equal. lia.
  - cbn [Z.of_nat shr]. rewrite iter_pos_nat, SuccNat2Pos.id_succ, shr_1_shiftl.
    f_equal. lia.
Qed.

(** Rounding [m * 2^k] at exponent [e - k] gives back the float [(m, e)]. *)
Lemma round_exact s m e k :
  bounded prec emax m e = true ->
  binary_round_aux prec emax s (Zpos (Pos.shiftl_nat m k)) (e - Z.of_nat k) loc_Exact
  = S754_finite s m e.
Proof.
  intros B. destruct (bounded_canonical m e B) as [C L].
  unfold binary_round_aux. rewrite (shr_exact m e k C).
  cbn [shr_m loc_of_shr_record round_nearest_even].
  pose proof (shr_exact m e 0 C) as E. cbn [Pos.shiftl_nat Nat.iter nat_rect Z.of_nat] in E.
  rewrite Z.sub_0_r in E. rewrite E. cbn [shr_m]. rewrite L. reflexivity.
Qed.

(** ** Multiplying and dividing by one *)

Lemma SFmul_one_l X :
  valid_binary X = true -> sf_finite X = true -> SF64mul sf_one X = X.
Proof.
  destruct X as [s|s| |s m e]; try discriminate; intros V _.
  - reflexivity.
  - unfold SF64mul, sf_one, SFmul. cbn [xorb].
    change (Pos.mul 4503599627370496 m) with (Pos.shiftl_nat m 52).
    replace (-52 + e)%Z with (e - Z.of_nat 52)%Z by lia.
    apply round_exact. exact V.
Qed.

Lemma div_eucl_exact a b :
  (0 < b)%Z -> Z.div_eucl (a * b) b = (a, 0%Z).
Proof.
  intros Hb.
  assert (E : Z.div_eucl (a * b) b = ((a * b) / b, (a * b) mod b)%Z).
  { unfold Z.div, Z.modulo. destruct (Z.div_eucl (a * b) b). reflexivity. }
  rewrite E, Z.div_mul, Z.mod_mul by lia. reflexivity.
Qed.

Lemma SFdiv_one_r X :
  valid_binary X = true -> sf_finite X = true -> SF64div X sf_one = X.
Proof.
  destruct X as [s|s| |s m e]; try discriminate; intros V _.
  - destruct s; reflexivity.
  - cbn [valid_binary] in V. destruct (bounded_canonical m e V) as [C L].
    unfold SF64div, sf_one, SFdiv, SFdiv_core_binary.
    cbn [Zdigits2]. change (Zpos (digits2_pos 4503599627370496)) with 53%Z.
    set (D := Zpos (digits2_pos m)) in *.
    set (e' := Z.min (fexp prec emax (D + e - (53 + -52))) (e - -52)).
    assert (He' : e' = e \/ e' = (e - 1)%Z).
    { subst e'. unfold fexp, SpecFloat.emin, prec, emax in *. lia. }
    assert (HD : (0 < D)%Z) by (subst D; lia).
    destruct He' as [He'|He']; rewrite He'.
    + replace (e - -52 - e)%Z with 52%Z by lia.
      rewrite Z.shiftl_mul_pow2 by lia.
      change (2 ^ 52)%Z with 4503599627370496%Z.
      rewrite div_eucl_exact by lia.
      change (new_location 4503599627370496 0) with loc_Exact.
      rewrite xorb_false_r.
      change (Zpos m) with (Zpos (Pos.shiftl_nat m 0)).
      replace e with (e - Z.of_nat 0)%Z at 1 by (simpl; lia).
      apply round_exact. exact V.
    + replace (e - -52 - (e - 1))%Z with 53%Z by lia.
      rewrite Z.shiftl_mul_pow2 by lia.
      replace (Zpos m * 2 ^ 53)%Z with (Zpos (Pos.shiftl_nat m 1) * 4503599627370496)%Z
        by (cbn [Pos.shiftl_nat Nat.iter nat_rect]; rewrite Pos2Z.inj_xO;
            change (2 ^ 53)%Z with (2 * 4503599627370496)%Z; lia).
      rewrite div_eucl_exact by lia.
      change (new_location 4503599627370496 0) with loc_Exact.
      rewrite xorb_false_r.
      replace (e - 1)%Z with (e - Z.of_nat 1)%Z by (simpl; lia).
      apply round_exact. exact V.
Qed.

(** ** The arithmetic of projecting through the identity matrix *)

Lemma Prim2SF_plus_zero x : Prim2SF (x + 0) = sf_plus_zero (Prim2SF x).
Proof.
  rewrite add_spec. change (Prim2SF 0) with (S754_zero false).
  destruct (Prim2SF x) as [[]|[]| |s m e]; reflexivity.
Qed.

Lemma SFmul_zero_l X :
  sf_finite X = true -> exists b, SF64mul (S754_zero false) X = S754_zero b.
Proof.
  destruct X as [s|s| |s m e]; try discriminate; intros _; simpl; eauto.
Qed.

Lemma SFadd_zero_zero a b : exists c, SF64add (S754_zero a) (S754_zero b) = S754_zero c.
Proof. destruct a, b; simpl; eauto. Qed.

Lemma sf_plus_zero_valid X :
  valid_binary X = true -> sf_finite X = true ->
  valid_binary (sf_plus_zero X) = true /\ sf_finite (sf_plus_zero X) = true.
Proof. destruct X; simpl; auto. Qed.

Lemma identity_denominator x y :
  is_finite x = true -> is_finite y = true ->
  Prim2SF (0 * x + 0 * y + 1 * 1) = sf_one.
Proof.
  rewrite !is_finite_spec. intros Fx Fy.
  rewrite !add_spec, !mul_spec.
  change (Prim2SF 1) with sf_one. change (Prim2SF 0) with (S754_zero false).
  destruct (SFmul_zero_l _ Fx) as [a ->], (SFmul_zero_l _ Fy) as [b ->].
  destruct (SFadd_zero_zero a b) as [c ->].
  rewrite SFmul_one_l by reflexivity. reflexivity.
Qed.

Lemma identity_numerator_x x y :
  is_finite x = true -> is_finite y = true ->
  Prim2SF (1 * x + 0 * y + 0 * 1) = sf_plus_zero (Prim2SF x).
Proof.
  rewrite !is_finite_spec. intros Fx Fy.
  rewrite !add_spec, !mul_spec.
  change (Prim2SF 1) with sf_one. change (Prim2SF 0) with (S754_zero false).
  rewrite (SFmul_one_l (Prim2SF x)) by (auto using Prim2SF_valid).
  destruct (SFmul_zero_l _ Fy) as [b ->].
  change (SF64mul (S754_zero false) sf_one) with (S754_zero false).
  destruct (Prim2SF x) as [[]|[]| |s m e]; try discriminate; destruct b; reflexivity.
Qed.

Lemma identity_numerator_y x y :
  is_finite x = true -> is_finite y = true ->
  Prim2SF (0 * x + 1 * y + 0 * 1) = sf_plus_zero (Prim2SF y).
Proof.
  rewrite !is_finite_spec. intros Fx Fy.
  rewrite !add_spec, !mul_spec.
  change (Prim2SF 1) with sf_one. change (Prim2SF 0) with (S754_zero false).
  rewrite (SFmul_one_l (Prim2SF y)) by (auto using Prim2SF_valid).
  destruct (SFmul_zero_l _ Fx) as [a ->].
  change (SF64mul (S754_zero false) sf_one) with (S754_zero false).
  destruct (Prim2SF y) as [[]|[]| |s m e]; try discriminate; destruct a; reflexivity.
Qed.

Lemma div_by_denominator n d X :
  valid_binary X = true -> sf_finite X = true ->
  Prim2SF n = sf_plus_zero X -> Prim2SF d = sf_one ->
  Prim2SF (n / d) = sf_plus_zero X.
Proof.
  intros V F Hn Hd. rewrite div_spec, Hn, Hd.
  destruct (sf_plus_zero_valid X V F). apply SFdiv_one_r; assumption.
Qed.

Lemma identity_x x y :
  is_finite x = true -> is_finite y = true ->
  ((1 * x + 0 * y + 0 * 1) / (0 * x + 0 * y + 1 * 1) = x + 0)%float.
Proof.
  intros Fx Fy. apply Prim2SF_inj. rewrite Prim2SF_plus_zero.
  apply div_by_denominator; auto using Prim2SF_valid, identity_numerator_x, identity_denominator.
  rewrite <- is_finite_spec. assumption.
Qed.

Lemma identity_y x y :
  is_finite x = true -> is_finite y = true ->
  ((0 * x + 1 * y + 0 * 1) / (0 * x + 0 * y + 1 * 1) = y + 0)%float.
Proof.
  intros Fx Fy. apply Prim2SF_inj. rewrite Prim2SF_plus_zero.
  apply div_by_denominator; auto using Prim2SF_valid, identity_numerator_y, identity_denominator.
  rewrite <- is_finite_spec. assumption.
Qed.

Lemma plus_zero_eqb x : is_finite x = true -> (x + 0 =? x)%float = true.
Proof.
  intros F. apply eqb_rank. unfold frank. rewrite <- !Prim2SF_nan, Prim2SF_plus_zero.
  rewrite is_finite_spec in F.
  destruct (Prim2SF x) as [[]|[]| |s m e]; try discriminate; auto.
Qed.

Lemma plus_zero_exact x :
  is_finite x = true -> x <> neg_zero -> (x + 0)%float = x.
Proof.
  intros F N. apply Prim2SF_inj. rewrite Prim2SF_plus_zero.
  rewrite is_finite_spec in F.
  destruct (Prim2SF x) as [[]|[]| |s m e] eqn:E; try discriminate; auto.
  exfalso. apply N. apply Prim2SF_inj. rewrite E. reflexivity.
Qed.

(* ================================================================== *)
(** * Facts about the sampling and the loops *)

Lemma random_sample_short {A} draw (population : list A) k :
  length population < k -> random_sample draw population k = Raise ValueError.
Proof.
  intros H. unfold random_sample.
  destruct (Nat.ltb_spec (length population) k); [reflexivity|lia].
Qed.

Lemma random_sample_enough {A} draw (population : list A) k :
  k <= length population ->
  random_sample draw population k = Ok (pick population draw).
Proof.
  intros H. unfold random_sample.
  destruct (Nat.ltb_spec (length population) k); [lia|reflexivity].
Qed.

Lemma pick_length {A} (population : list A) draw :
  forallb (fun p => p <? length population) draw = true ->
  length (pick population draw) = length draw.
Proof.
  induction draw as [|p draw IH]; cbn [forallb pick flat_map length]; intros H.
  - reflexivity.
  - apply andb_true_iff in H. destruct H as [Hp H].
    apply Nat.ltb_lt in Hp. apply nth_error_Some in Hp.
    destruct (nth_error population p); [|congruence].
    cbn [app length]. f_equal. apply IH. exact H.
Qed.

Lemma pick_In {A} (population : list A) draw x :
  In x (pick population draw) -> In x population.
Proof.
  unfold pick. rewrite in_flat_map. intros (p & _ & H).
  destruct (nth_error population p) eqn:E; [|contradiction].
  destruct H as [<-|[]]. eapply nth_error_In; eauto.
Qed.

Lemma valid_draw_length {A} (population : list A) k draw :
  valid_draw (length population) k draw = true ->
  length (pick population draw) = k.
Proof.
  unfold valid_draw. intros H.
  apply andb_true_iff in H. destruct H as [H _].
  apply andb_true_iff in H. destruct H as [L B].
  apply Nat.eqb_eq in L. rewrite pick_length; assumption.
Qed.

(** A condition that never raises makes [filterM] a [filter]. *)
Lemma filterM_filter {A} (f : A -> result bool) (g : A -> bool) xs :
  (forall x, In x xs -> f x = Ok (g x)) ->
  filterM f xs = Ok (filter g xs).
Proof.
  induction xs as [|x xs IH]; intros H; cbn [filterM filter].
  - reflexivity.
  - rewrite (H x) by (left; reflexivity). cbn [bind].
    rewrite IH by (intros; apply H; right; assumption).
    reflexivity.
Qed.

Lemma filterM_In {A} (f : A -> result bool) xs ys x :
  filterM f xs = Ok ys -> In x ys -> In x xs.
Proof.
  revert ys. induction xs as [|a xs IH]; cbn [filterM]; intros ys H Hx.
  - inversion H; subst. contradiction.
  - destruct (f a) as [b|e]; cbn [bind] in H; [|discriminate].
    destruct (filterM f xs) as [zs|e]; cbn [bind] in H; [|discriminate].
    inversion H; subst; clear H.
    destruct b.
    + destruct Hx as [<-|Hx]; [left; reflexivity|right; eauto].
    + right; eauto.
Qed.

Lemma keep_larger_length {A} (l c : list A) :
  length (keep_larger l c) = Nat.max (length l) (length c).
Proof.
  unfold keep_larger. destruct (Nat.ltb_spec (length l) (length c)); lia.
Qed.

Lemma keep_larger_cases {A} (l c : list A) :
  keep_larger l c = l \/ keep_larger l c = c.
Proof. unfold keep_larger. destruct (_ <? _); auto. Qed.

(** ** The consensus filter *)

Section Filter.
Variables (matched_pairs : list match_pair) (keypoints1 keypoints2 : list keypoint).

Lemma filter_loop_In orient_agreement scale_agreement sels largest res :
  filter_loop matched_pairs keypoints1 keypoints2 orient_agreement scale_agreement
              sels largest = Ok res ->
  (forall m, In m largest -> In m matched_pairs) ->
  forall m, In m res -> In m matched_pairs.
Proof.
  revert largest. induction sels as [|sel sels IH]; cbn [filter_loop]; intros largest H L.
  - inversion H; subst. exact L.
  - destruct (consensus_set _ _ _ _ _ sel) as [cs|e] eqn:E; cbn [bind] in H; [|discriminate].
    apply (IH _ H). intros m Hm.
    destruct (keep_larger_cases largest cs) as [K|K]; rewrite K in Hm; auto.
    unfold consensus_set in E.
    destruct (match_rows keypoints1 keypoints2 sel); cbn [bind] in E; [|discriminate].
    eapply filterM_In; eauto.
Qed.

Lemma filter_loop_length orient_agreement scale_agreement sels largest res :
  filter_loop matched_pairs keypoints1 keypoints2 orient_agreement scale_agreement
              sels largest = Ok res ->
  length largest <= length res /\
  forall sel cs, In sel sels ->
    consensus_set matched_pairs keypoints1 keypoints2
                  orient_agreement scale_agreement sel = Ok cs ->
    length cs <= length res.
Proof.
  revert largest. induction sels as [|sel sels IH]; cbn [filter_loop]; intros largest H.
  - inversion H; subst. split; [lia|]. intros ? ? [].
  - destruct (consensus_set _ _ _ _ _ sel) as [cs|e] eqn:E; cbn [bind] in H; [|discriminate].
    destruct (IH _ H) as [L R]. rewrite keep_larger_length in L.
    split; [lia|]. intros sel' cs' [<-|Hin] E'.
    + rewrite E in E'. inversion E'; subst. lia.
    + eauto.
Qed.

Lemma filter_loop_ok orient_agreement scale_agreement sels largest :
  (forall sel, In sel sels ->
     is_ok (consensus_set matched_pairs keypoints1 keypoints2
                          orient_agreement scale_agreement sel) = true) ->
  is_ok (filter_loop matched_pairs keypoints1 keypoints2
                     orient_agreement scale_agreement sels largest) = true.
Proof.
  revert largest. induction sels as [|sel sels IH]; cbn [filter_loop]; intros largest H.
  - reflexivity.
  - pose proof (H sel (or_introl eq_refl)) as E.
    destruct (consensus_set _ _ _ _ _ sel) as [cs|e]; [|discriminate].
    cbn [bind]. apply IH. intros; apply H; right; assumption.
Qed.
End Filter.

(** * Claims on RANSACFilter *)

(** The first sample is an outlier and gathers the three outliers; the
    second gathers the nine matches of scale ratio 2, which no later sample
    exceeds. *)
Example RANSACFilter_example :
  RANSACFilter example_draw example_matches example_keypoints1 example_keypoints2 30 0.5
  = Ok (firstn 9 example_matches).
Proof. reflexivity. Qed.

(** C1 (as the code has it): the filter always asks [random.sample] for 10
    matches.  With fewer than 10 matches, from 0 to 9, the call fails with
    the sampler's [ValueError]; with 10 or more the sampling succeeds and
    draws exactly 10 matches. *)
Theorem RANSACFilter_sample_size
        draw matched_pairs keypoints1 keypoints2 orient_agreement scale_agreement :
  (length matched_pairs < 10 ->
   RANSACFilter draw matched_pairs keypoints1 keypoints2
                orient_agreement scale_agreement = Raise ValueError) /\
  (10 <= length matched_pairs ->
   valid_draw (length matched_pairs) 10 draw = true ->
   exists random_selections,
     random_sample draw matched_pairs 10 = Ok random_selections /\
     length random_selections = 10 /\
     RANSACFilter draw matched_pairs keypoints1 keypoints2
                  orient_agreement scale_agreement
     = filter_loop matched_pairs keypoints1 keypoints2
                   orient_agreement scale_agreement random_selections []).
Proof.
  split.
  - intros H. unfold RANSACFilter. rewrite random_sample_short by assumption. reflexivity.
  - intros H V. exists (pick matched_pairs draw).
    unfold RANSACFilter. rewrite random_sample_enough by assumption.
    repeat split. apply valid_draw_length. assumption.
Qed.

Lemma RANSACFilter_sample_size_witness :
  RANSACFilter example_draw (firstn 9 example_matches)
               example_keypoints1 example_keypoints2 30 0.5 = Raise ValueError /\
  exists random_selections,
    random_sample example_draw example_matches 10 = Ok random_selections /\
    length random_selections = 10 /\
    RANSACFilter example_draw example_matches example_keypoints1 example_keypoints2 30 0.5
    = filter_loop example_matches example_keypoints1 example_keypoints2 30 0.5
                  random_selections [].
Proof.
  split.
  - apply (proj1 (RANSACFilter_sample_size example_draw (firstn 9 example_matches)
                    example_keypoints1 example_keypoints2 30 0.5)).
    simpl. lia.
  - apply (proj2 (RANSACFilter_sample_size example_draw example_matches
                    example_keypoints1 example_keypoints2 30 0.5)).
    + simpl. lia.
    + reflexivity.
Defined.

(** C1, counterexample: with three matches the claim promises three
    samples and no failure; the call raises [ValueError]. *)
Lemma RANSACFilter_three_matches :
  RANSACFilter [0; 1; 2] (firstn 3 example_matches)
               example_keypoints1 example_keypoints2 30 0.5
  = Raise ValueError.
Proof. reflexivity. Qed.

(** ** A sampled match agrees with itself *)

Lemma agrees_self orient_agreement scale_agreement k :
  is_finite (kp_orientation (fst k) - kp_orientation (snd k)) = true ->
  is_finite (kp_scale (fst k) / kp_scale (snd k)) = true ->
  (0 <=? orient_agreement)%float = true ->
  (0 <=? scale_agreement)%float = true ->
  agrees orient_agreement scale_agreement
         (kp_orientation (fst k) - kp_orientation (snd k))
         (kp_scale (fst k) / kp_scale (snd k)) k = true.
Proof.
  intros Fo Fs Ho Hs. unfold agrees.
  rewrite !sub_diag by assumption.
  change (abs zero) with 0%float. rewrite Ho, Hs. reflexivity.
Qed.

Lemma finite_match_rows keypoints1 keypoints2 m :
  finite_match keypoints1 keypoints2 m = true ->
  exists k, match_rows keypoints1 keypoints2 m = Ok k /\
            is_finite (kp_orientation (fst k) - kp_orientation (snd k)) = true /\
            is_finite (kp_scale (fst k) / kp_scale (snd k)) = true.
Proof.
  unfold finite_match. destruct (match_rows keypoints1 keypoints2 m) as [k|e]; [|discriminate].
  intros H. apply andb_true_iff in H. eauto.
Qed.

Lemma consensus_set_self matched_pairs keypoints1 keypoints2
      orient_agreement scale_agreement sel :
  forallb (finite_match keypoints1 keypoints2) matched_pairs = true ->
  (0 <=? orient_agreement)%float = true ->
  (0 <=? scale_agreement)%float = true ->
  In sel matched_pairs ->
  exists cs,
    consensus_set matched_pairs keypoints1 keypoints2
                  orient_agreement scale_agreement sel = Ok cs /\
    In sel cs.
Proof.
  intros F Ho Hs Hin. rewrite forallb_forall in F.
  destruct (finite_match_rows _ _ _ (F sel Hin)) as (s & Es & Fo & Fs).
  unfold consensus_set. rewrite Es. cbn [bind].
  set (rows m := match match_rows keypoints1 keypoints2 m with
                 | Ok k => k
                 | Raise _ => s
                 end).
  erewrite filterM_filter with
    (g := fun m => agrees orient_agreement scale_agreement
                          (kp_orientation (fst s) - kp_orientation (snd s))
                          (kp_scale (fst s) / kp_scale (snd s)) (rows m)).
  - eexists. split; [reflexivity|].
    apply filter_In. split; [assumption|].
    unfold rows. rewrite Es. apply agrees_self; assumption.
  - intros m Hm. destruct (finite_match_rows _ _ _ (F m Hm)) as (k & Ek & _).
    unfold rows. rewrite Ek. reflexivity.
Qed.

(** C10 (as the code has it): with at least 10 matches whose rows exist
    and whose orientation differences and scale ratios are finite, and
    non-negative agreements, every sampled match lies in its own consensus
    set, and the filter returns a non-empty list of input matches. *)
Theorem RANSACFilter_nonempty
        draw matched_pairs keypoints1 keypoints2 orient_agreement scale_agreement :
  10 <= length matched_pairs ->
  valid_draw (length matched_pairs) 10 draw = true ->
  forallb (finite_match keypoints1 keypoints2) matched_pairs = true ->
  (0 <=? orient_agreement)%float = true ->
  (0 <=? scale_agreement)%float = true ->
  (forall sel, In sel (pick matched_pairs draw) ->
     exists cs,
       consensus_set matched_pairs keypoints1 keypoints2
                     orient_agreement scale_agreement sel = Ok cs /\
       In sel cs) /\
  exists largest_set,
    RANSACFilter draw matched_pairs keypoints1 keypoints2
                 orient_agreement scale_agreement = Ok largest_set /\
    largest_set <> [] /\
    forall m, In m largest_set -> In m matched_pairs.
Proof.
  intros L V F Ho Hs.
  assert (Self : forall sel, In sel (pick matched_pairs draw) ->
     exists cs,
       consensus_set matched_pairs keypoints1 keypoints2
                     orient_agreement scale_agreement sel = Ok cs /\
       In sel cs).
  { intros sel Hsel. apply consensus_set_self; auto. eapply pick_In; eauto. }
  split; [exact Self|].
  unfold RANSACFilter. rewrite random_sample_enough by assumption. cbn [bind].
  pose proof (valid_draw_length matched_pairs 10 draw V) as Len.
  destruct (filter_loop matched_pairs keypoints1 keypoints2 orient_agreement
                        scale_agreement (pick matched_pairs draw) []) as [res|e] eqn:E.
  - exists res. split; [reflexivity|]. split.
    + destruct (pick matched_pairs draw) as [|sel sels] eqn:P; [discriminate|].
      destruct (Self sel (or_introl eq_refl)) as (cs & Ecs & Hcs).
      destruct (filter_loop_length _ _ _ _ _ _ _ _ E) as [_ R].
      specialize (R sel cs (or_introl eq_refl) Ecs).
      intros ->. destruct cs; [contradiction|]. simpl in R. lia.
    + eapply filter_loop_In; eauto. intros ? [].
  - exfalso.
    assert (O : is_ok (filter_loop matched_pairs keypoints1 keypoints2 orient_agreement
                         scale_agreement (pick matched_pairs draw) []) = true).
    { apply filter_loop_ok. intros sel Hsel.
      destruct (Self sel Hsel) as (cs & -> & _). reflexivity. }
    rewrite E in O. discriminate.
Qed.

Lemma RANSACFilter_nonempty_witness :
  exists largest_set,
    RANSACFilter example_draw example_matches example_keypoints1 example_keypoints2
                 30 0.5 = Ok largest_set /\
    largest_set <> [] /\
    forall m, In m largest_set -> In m example_matches.
Proof.
  apply (RANSACFilter_nonempty example_draw example_matches
           example_keypoints1 example_keypoints2 30 0.5).
  - simpl. lia.
  - reflexivity.
  - reflexivity.
  - reflexivity.
  - reflexivity.
Defined.

(** C10, counterexample: ten matches between keypoints of scale [1e200] and
    [1e-200].  Every scale ratio overflows to infinity, [inf - inf] is NaN,
    no match agrees with any sample and the filter returns the empty list. *)
Lemma RANSACFilter_overflow_empty :
  10 <= length ten_matches /\
  (0 <=? 30)%float = true /\ (0 <=? 0.5)%float = true /\
  RANSACFilter ten_draw ten_matches huge_keypoints tiny_keypoints 30 0.5 = Ok [].
Proof. repeat split. simpl. lia. Qed.

(** ** Looser agreements *)

Lemma agrees_looser oa1 sa1 oa2 sa2 base_o base_s k :
  (oa1 <=? oa2)%float = true -> (sa1 <=? sa2)%float = true ->
  agrees oa1 sa1 base_o base_s k = true ->
  agrees oa2 sa2 base_o base_s k = true.
Proof.
  unfold agrees. intros Ho Hs H. apply andb_true_iff in H. destruct H as [H1 H2].
  apply andb_true_iff. split; eapply leb_trans; eauto.
Qed.

Lemma filterM_contained {A} (f1 f2 : A -> result bool) xs :
  (forall x, match f1 x, f2 x with
             | Ok b1, Ok b2 => b1 = true -> b2 = true
             | Raise e1, Raise e2 => e1 = e2
             | _, _ => False
             end) ->
  contained (filterM f1 xs) (filterM f2 xs).
Proof.
  intros H. induction xs as [|x xs IH]; cbn [filterM].
  - cbn. split; [lia|tauto].
  - specialize (H x).
    destruct (f1 x) as [b1|e1], (f2 x) as [b2|e2]; try contradiction; cbn [bind];
      [|exact H].
    unfold contained in IH.
    destruct (filterM f1 xs) as [s1|e1], (filterM f2 xs) as [s2|e2];
      try contradiction; cbn [bind contained]; [|exact IH].
    destruct IH as [IL II].
    destruct b1, b2; cbn [length In].
    + split; [lia|]. intros y [->|Hy]; auto.
    + specialize (H eq_refl). discriminate.
    + split; [lia|]. intros y Hy; auto.
    + split; [lia|]. auto.
Qed.

Section Monotone.
Variables (matched_pairs : list match_pair) (keypoints1 keypoints2 : list keypoint).
Variables oa1 sa1 oa2 sa2 : float.
Hypothesis orient_looser : (oa1 <=? oa2)%float = true.
Hypothesis scale_looser : (sa1 <=? sa2)%float = true.

Lemma consensus_set_contained sel :
  contained (consensus_set matched_pairs keypoints1 keypoints2 oa1 sa1 sel)
            (consensus_set matched_pairs keypoints1 keypoints2 oa2 sa2 sel).
Proof.
  unfold consensus_set.
  destruct (match_rows keypoints1 keypoints2 sel) as [s|e]; cbn [bind]; [|reflexivity].
  apply filterM_contained. intros m.
  destruct (match_rows keypoints1 keypoints2 m) as [k|e]; cbn [bind]; [|reflexivity].
  apply agrees_looser; assumption.
Qed.

Lemma filter_loop_no_shorter sels largest1 largest2 :
  length largest1 <= length largest2 ->
  no_shorter (filter_loop matched_pairs keypoints1 keypoints2 oa1 sa1 sels largest1)
             (filter_loop matched_pairs keypoints1 keypoints2 oa2 sa2 sels largest2).
Proof.
  revert largest1 largest2.
  induction sels as [|sel sels IH]; intros largest1 largest2 L; cbn [filter_loop].
  - exact L.
  - pose proof (consensus_set_contained sel) as C. unfold contained in C.
    destruct (consensus_set matched_pairs keypoints1 keypoints2 oa1 sa1 sel) as [c1|e1],
             (consensus_set matched_pairs keypoints1 keypoints2 oa2 sa2 sel) as [c2|e2];
      try contradiction; cbn [bind]; [|exact C].
    apply IH. rewrite !keep_larger_length. lia.
Qed.
End Monotone.

(** C8: on the same draw, the consensus set found with looser agreements
    is at least as large as the one found with tighter agreements (both
    runs fail alike when they fail); and for each sampled match, the looser
    consensus set contains the tighter one. *)
Theorem RANSACFilter_monotone
        draw matched_pairs keypoints1 keypoints2 oa1 sa1 oa2 sa2 :
  (oa1 <=? oa2)%float = true ->
  (sa1 <=? sa2)%float = true ->
  no_shorter (RANSACFilter draw matched_pairs keypoints1 keypoints2 oa1 sa1)
             (RANSACFilter draw matched_pairs keypoints1 keypoints2 oa2 sa2) /\
  forall sel,
    contained (consensus_set matched_pairs keypoints1 keypoints2 oa1 sa1 sel)
              (consensus_set matched_pairs keypoints1 keypoints2 oa2 sa2 sel).
Proof.
  intros Ho Hs. split.
  - unfold RANSACFilter.
    destruct (random_sample draw matched_pairs 10) as [sels|e]; cbn [bind]; [|reflexivity].
    apply filter_loop_no_shorter; auto.
  - intros sel. apply consensus_set_contained; assumption.
Qed.

Lemma RANSACFilter_monotone_witness :
  no_shorter (RANSACFilter example_draw example_matches
                           example_keypoints1 example_keypoints2 0 0.25)
             (RANSACFilter example_draw example_matches
                           example_keypoints1 example_keypoints2 30 0.5).
Proof.
  apply (RANSACFilter_monotone example_draw example_matches
           example_keypoints1 example_keypoints2 0 0.25 30 0.5); reflexivity.
Defined.

(* ================================================================== *)
(** * Claim on KeypointProjection *)

Example KeypointProjection_translation :
  KeypointProjection [(1, 2); (-3, 0.5)]%float (Some (translation 3 4))
  = Ok [(4, 6); (0, 4.5)]%float.
Proof. reflexivity. Qed.

Example KeypointProjection_none :
  KeypointProjection [(1, 2)]%float None = Raise AssertionError.
Proof. reflexivity. Qed.

Lemma project_identity p :
  finite_point p = true ->
  (let '(x', y', w') := project_homogeneous identity3 p in (x' / w', y' / w')%float)
  = (fst p + 0, snd p + 0)%float.
Proof.
  destruct p as [x y]. unfold finite_point. cbn [fst snd].
  intros F. apply andb_true_iff in F. destruct F as [Fx Fy].
  cbn [project_homogeneous identity3].
  rewrite identity_x, identity_y by assumption. reflexivity.
Qed.

Lemma same_number_plus_zero x : is_finite x = true -> same_number x (x + 0).
Proof.
  intros F. split.
  - apply plus_zero_eqb; assumption.
  - apply plus_zero_exact; assumption.
Qed.

(** C9: projecting points with finite coordinates through the identity
    matrix returns every point unchanged. *)
Theorem KeypointProjection_identity (xy_points : list point) :
  forallb finite_point xy_points = true ->
  exists out,
    KeypointProjection xy_points (Some identity3) = Ok out /\
    Forall2 same_point xy_points out.
Proof.
  intros F. eexists. split; [reflexivity|].
  induction xy_points as [|p ps IH]; cbn [map]; constructor.
  - cbn [forallb] in F. apply andb_true_iff in F. destruct F as [Fp _].
    rewrite project_identity by assumption.
    unfold finite_point in Fp. apply andb_true_iff in Fp. destruct Fp.
    split; cbn [fst snd]; apply same_number_plus_zero; assumption.
  - apply IH. cbn [forallb] in F. apply andb_true_iff in F. tauto.
Qed.

Lemma KeypointProjection_identity_witness :
  exists out,
    KeypointProjection [(3, 4); (-2.5, 0); (0, 1e10)]%float (Some identity3) = Ok out /\
    Forall2 same_point [(3, 4); (-2.5, 0); (0, 1e10)]%float out.
Proof. apply KeypointProjection_identity. reflexivity. Defined.

(* ================================================================== *)
(** * Facts about the homography estimator *)

Lemma take_rows_in_range (arr : list point) idx :
  (forall j, In j idx -> j < length arr) ->
  take_rows arr idx = Ok (map (nth_point arr) idx).
Proof.
  unfold take_rows. induction idx as [|j idx IH]; intros H; cbn [mapM map].
  - reflexivity.
  - unfold py_index at 1.
    rewrite (nth_error_nth' arr (0, 0)%float) by (apply H; left; reflexivity).
    cbn [bind]. rewrite IH by (intros; apply H; right; assumption).
    reflexivity.
Qed.


Lemma fold_keep_larger_In {A} (sets : list (list A)) largest :
  fold_left keep_larger sets largest = largest \/
  In (fold_left keep_larger sets largest) sets.
Proof.
  revert largest. induction sets as [|c sets IH]; intros largest; cbn [fold_left].
  - left. reflexivity.
  - destruct (IH (keep_larger largest c)) as [E|I].
    + rewrite E. destruct (keep_larger_cases largest c) as [->| ->]; [left|right; left]; reflexivity.
    + right. right. exact I.
Qed.

Section Estimator.
Variable findHomography : list point -> list point -> result (option matrix).
Variables (draws : nat -> list nat) (xy_src xy_ref : list point) (tol : float).

Let run (i : nat) : result (list nat) :=
  iteration findHomography (draws i) xy_src xy_ref tol.

(** The loop keeps the first longest of the inlier sets of its iterations. *)
Lemma homography_loop_fold iterations largest best :
  homography_loop findHomography draws xy_src xy_ref tol iterations largest = Ok best <->
  exists sets, mapM run iterations = Ok sets /\
               best = fold_left keep_larger sets largest.
Proof.
  revert largest. induction iterations as [|i rest IH]; intros largest;
    cbn [homography_loop mapM].
  - split.
    + intros H. inversion H; subst. exists []. split; reflexivity.
    + intros (sets & H & ->). inversion H; subst. reflexivity.
  - fold (run i). destruct (run i) as [c|e]; cbn [bind].
    + rewrite IH. split.
      * intros (sets & H & ->). exists (c :: sets). rewrite H. split; reflexivity.
      * intros (sets & H & ->).
        destruct (mapM run rest) as [sets'|e]; cbn [bind] in H; [|discriminate].
        inversion H; subst. exists sets'. split; reflexivity.
    + split; [discriminate|]. intros (sets & H & _). discriminate.
Qed.

(** The loop stops at the first iteration that raises. *)
Lemma homography_loop_raise before i after largest e :
  (forall k, In k before -> is_ok (run k) = true) ->
  run i = Raise e ->
  homography_loop findHomography draws xy_src xy_ref tol
                  (before ++ i :: after) largest = Raise e.
Proof.
  revert largest. induction before as [|k before IH]; intros largest Hb Hi;
    cbn [app homography_loop].
  - fold (run i). rewrite Hi. reflexivity.
  - fold (run k). pose proof (Hb k (or_introl eq_refl)) as Hk.
    destruct (run k) as [c|e']; [|discriminate]. cbn [bind].
    apply IH; [|assumption]. intros; apply Hb; right; assumption.
Qed.

Lemma inlier_set_range projected current j :
  inlier_set xy_src xy_ref projected tol = Ok current ->
  In j current -> j < length xy_src.
Proof.
  unfold inlier_set. intros H Hj.
  pose proof (filterM_In _ _ _ j H Hj) as I. apply in_seq in I. lia.
Qed.

Lemma iteration_range i current j :
  run i = Ok current -> In j current -> j < length xy_src.
Proof.
  unfold run, iteration. intros H.
  destruct (random_sample _ _ _) as [sel|]; cbn [bind] in H; [|discriminate].
  destruct (take_rows xy_src sel) as [src4|]; cbn [bind] in H; [|discriminate].
  destruct (take_rows xy_ref sel) as [ref4|]; cbn [bind] in H; [|discriminate].
  destruct (findHomography src4 ref4) as [h|]; cbn [bind] in H; [|discriminate].
  destruct (KeypointProjection xy_src h) as [proj|]; cbn [bind] in H; [|discriminate].
  eapply inlier_set_range; eauto.
Qed.

Lemma homography_loop_range iterations best j :
  homography_loop findHomography draws xy_src xy_ref tol iterations [] = Ok best ->
  In j best -> j < length xy_src.
Proof.
  intros H Hj. apply homography_loop_fold in H. destruct H as (sets & M & ->).
  destruct (fold_keep_larger_In sets (@nil nat)) as [E|I].
  - rewrite E in Hj. contradiction.
  - revert M I Hj. generalize (fold_left keep_larger sets []). intros best.
    revert sets. induction iterations as [|i rest IH]; intros sets M I Hj; cbn [mapM] in M.
    + inversion M; subst. contradiction.
    + destruct (run i) as [c|] eqn:Ri; cbn [bind] in M; [|discriminate].
      destruct (mapM run rest) as [sets'|]; cbn [bind] in M; [|discriminate].
      inversion M; subst. destruct I as [<-|I].
      * eapply iteration_range; eauto.
      * eapply IH; eauto.
Qed.

(** A sample the solver finds no model for makes the iteration fail the
    projector's assertion. *)
Lemma iteration_no_model i random_selections src4 ref4 :
  random_sample (draws i) (seq 0 (length xy_src)) 4 = Ok random_selections ->
  take_rows xy_src random_selections = Ok src4 ->
  take_rows xy_ref random_selections = Ok ref4 ->
  findHomography src4 ref4 = Ok None ->
  run i = Raise AssertionError.
Proof.
  intros S T1 T2 F. unfold run, iteration. rewrite S. cbn [bind].
  rewrite T1. cbn [bind]. rewrite T2. cbn [bind]. rewrite F. reflexivity.
Qed.
End Estimator.

(** ** What an iteration scores *)






(** * Claims on RANSACHomography *)






(** C3 (as the code has it): a sample for which the solver finds no model
    is not skipped.  At the first such iteration the projector's assertion
    fails and the whole call raises [AssertionError]; if the solver raises
    instead, the call raises the solver's error.  No later iteration runs. *)
Theorem RANSACHomography_degenerate_sample
        findHomography draws xy_src xy_ref num_iter tol i random_selections src4 ref4 :
  length xy_src = length xy_ref ->
  i < Z.to_nat num_iter ->
  (forall k, k < i ->
     is_ok (iteration findHomography (draws k) xy_src xy_ref (tol * 1)%float) = true) ->
  random_sample (draws i) (seq 0 (length xy_src)) 4 = Ok random_selections ->
  take_rows xy_src random_selections = Ok src4 ->
  take_rows xy_ref random_selections = Ok ref4 ->
  (findHomography src4 ref4 = Ok None ->
   RANSACHomography findHomography draws xy_src xy_ref num_iter tol
   = Raise AssertionError) /\
  (forall e, findHomography src4 ref4 = Raise e ->
   RANSACHomography findHomography draws xy_src xy_ref num_iter tol = Raise e).
Proof.
  intros Len Hi Before Smp T1 T2.
  assert (Split : seq 0 (Z.to_nat num_iter)
                  = seq 0 i ++ i :: seq (S i) (Z.to_nat num_iter - S i)).
  { replace (Z.to_nat num_iter) with (i + S (Z.to_nat num_iter - S i)) at 1 by lia.
    rewrite seq_app. cbn [seq Nat.add]. reflexivity. }
  assert (Stop : forall e,
             iteration findHomography (draws i) xy_src xy_ref (tol * 1)%float = Raise e ->
             RANSACHomography findHomography draws xy_src xy_ref num_iter tol = Raise e).
  { intros e He. unfold RANSACHomography.
    rewrite Len, Nat.eqb_refl. cbn [assert_ bind]. rewrite Split.
    rewrite (homography_loop_raise findHomography draws xy_src xy_ref (tol * 1)%float
               (seq 0 i) i _ [] e); [reflexivity| |exact He].
    intros k Hk. apply Before. apply in_seq in Hk. lia. }
  split.
  - intros F. apply Stop. eapply iteration_no_model; eauto.
  - intros e F. apply Stop. unfold iteration.
    rewrite Smp. cbn [bind]. rewrite T1. cbn [bind]. rewrite T2. cbn [bind].
    rewrite F. reflexivity.
Qed.

Lemma RANSACHomography_degenerate_sample_witness :
  translation_solver (map (nth_point repeated_src) [0; 1; 2; 3])
                     (map (nth_point repeated_ref) [0; 1; 2; 3]) = Ok None /\
  RANSACHomography translation_solver degenerate_second repeated_src repeated_ref 3 0.5
  = Raise AssertionError.
Proof.
  split; [reflexivity|].
  refine (proj1 (RANSACHomography_degenerate_sample
                   translation_solver degenerate_second repeated_src repeated_ref 3 0.5
                   1 [0; 1; 2; 3]
                   (map (nth_point repeated_src) [0; 1; 2; 3])
                   (map (nth_point repeated_ref) [0; 1; 2; 3]) _ _ _ _ _ _) _).
  - reflexivity.
  - simpl. lia.
  - intros k Hk. assert (k = 0) as -> by lia. reflexivity.
  - reflexivity.
  - reflexivity.
  - reflexivity.
  - reflexivity.
Defined.

(** C3, counterexample: three iterations of which only the second draws a
    degenerate sample.  The claim has the loop skip it and go on; the call
    raises [AssertionError]. *)
Lemma RANSACHomography_degenerate_aborts :
  is_ok (iteration translation_solver (degenerate_second 0)
                   repeated_src repeated_ref (0.5 * 1)%float) = true /\
  is_ok (iteration translation_solver (degenerate_second 2)
                   repeated_src repeated_ref (0.5 * 1)%float) = true /\
  translation_solver (map (nth_point repeated_src) (degenerate_second 1))
                     (map (nth_point repeated_ref) (degenerate_second 1)) = Ok None /\
  RANSACHomography translation_solver degenerate_second repeated_src repeated_ref 3 0.5
  = Raise AssertionError.
Proof. repeat split. Qed.



(* ================================================================== *)
(** * Facts about the descriptor matcher *)

(** ** The stable sort *)

Lemma ltb_leb x y : (x <? y)%float = true -> (x <=? y)%float = true.
Proof.
  intros H. apply not_ltb_leb.
  - apply (ltb_is_nan x y H).
  - apply (ltb_is_nan x y H).
  - apply ltb_asym. exact H.
Qed.

Section StableSort.
Context {A : Type}.
(** The place an element had in the list that is sorted. *)
Variable place : A -> nat.

Lemma insert_by_key_In (x y : float * A) l :
  In y (insert_by_key x l) <-> y = x \/ In y l.
Proof.
  induction l as [|z l IH]; cbn [insert_by_key].
  - cbn. intuition.
  - destruct (fst x <? fst z)%float; cbn [In]; [intuition|].
    rewrite IH. intuition.
Qed.

Lemma insert_by_key_perm (x : float * A) l :
  Permutation (insert_by_key x l) (x :: l).
Proof.
  induction l as [|z l IH]; cbn [insert_by_key].
  - reflexivity.
  - destruct (fst x <? fst z)%float; [reflexivity|].
    rewrite IH. apply perm_swap.
Qed.

Lemma listed_before_trans_lt (x y z : float * A) :
  is_nan (fst y) = false -> is_nan (fst z) = false ->
  (fst x <? fst y)%float = true -> listed_before place y z ->
  listed_before place x z.
Proof.
  intros Ny Nz L [H|[H _]]; left.
  - eapply ltb_trans; eauto.
  - eapply ltb_leb_trans; eauto. apply not_ltb_leb; assumption.
Qed.

Lemma insert_by_key_sorted (x : float * A) l :
  Forall (fun y => is_nan (fst y) = false) l ->
  Forall (fun y => place (snd y) < place (snd x)) l ->
  StronglySorted (listed_before place) l ->
  StronglySorted (listed_before place) (insert_by_key x l).
Proof.
  intros N P S. induction S as [|y l S IH F]; cbn [insert_by_key].
  - repeat constructor.
  - inversion N as [|? ? Ny Nl]; subst. inversion P as [|? ? Py Pl]; subst.
    destruct (fst x <? fst y)%float eqn:L.
    + constructor; [constructor; assumption|].
      constructor; [left; assumption|].
      rewrite Forall_forall in *. intros z Hz.
      eapply listed_before_trans_lt; eauto.
    + constructor; [apply IH; assumption|].
      rewrite Forall_forall in *. intros z Hz.
      apply insert_by_key_In in Hz. destruct Hz as [->|Hz]; [|auto].
      right. split; assumption.
Qed.

Lemma sort_keyed_acc (l acc : list (float * A)) :
  Forall (fun y => is_nan (fst y) = false) (acc ++ l) ->
  StronglySorted (fun x y => place (snd x) < place (snd y)) l ->
  (forall x y, In x acc -> In y l -> place (snd x) < place (snd y)) ->
  StronglySorted (listed_before place) acc ->
  let s := fold_left (fun acc x => insert_by_key x acc) l acc in
  StronglySorted (listed_before place) s /\ Permutation s (acc ++ l).
Proof.
  revert acc. induction l as [|x l IH]; intros acc N P B S; cbn [fold_left].
  - rewrite app_nil_r. split; [assumption|reflexivity].
  - inversion P as [|? ? Pl Px]; subst.
    assert (Perm : Permutation (insert_by_key x acc ++ l) (acc ++ x :: l)).
    { rewrite insert_by_key_perm. apply Permutation_middle. }
    destruct (IH (insert_by_key x acc)) as [S' P'].
    + eapply Permutation_Forall; [symmetry; exact Perm|exact N].
    + assumption.
    + intros a b Ha Hb. apply insert_by_key_In in Ha. destruct Ha as [->|Ha].
      * rewrite Forall_forall in Px. auto.
      * apply B; [assumption|right; assumption].
    + apply insert_by_key_sorted; [| |assumption].
      * apply Forall_app in N. tauto.
      * rewrite Forall_forall. intros a Ha. apply B; [assumption|left; reflexivity].
    + split; [assumption|]. rewrite P'. exact Perm.
Qed.

Lemma sort_keyed_spec (l : list (float * A)) :
  Forall (fun y => is_nan (fst y) = false) l ->
  StronglySorted (fun x y => place (snd x) < place (snd y)) l ->
  StronglySorted (listed_before place) (sort_keyed l) /\ Permutation (sort_keyed l) l.
Proof.
  intros N P. apply (sort_keyed_acc l []); auto.
  - intros ? ? [].
  - constructor.
Qed.
End StableSort.

(** ** Enumerated lists *)

Lemma enumerate_from_In {A} (l : list A) s j x :
  In (j, x) (combine (seq s (length l)) l) <-> s <= j /\ nth_error l (j - s) = Some x.
Proof.
  revert s. induction l as [|a l IH]; intros s; cbn [length seq combine In].
  - split; [tauto|]. intros [_ H]. destruct (j - s); discriminate.
  - rewrite IH. split.
    + intros [E|[L N]].
      * inversion E; subst. rewrite Nat.sub_diag. split; [lia|reflexivity].
      * split; [lia|]. replace (j - s) with (S (j - S s)) by lia. exact N.
    + intros [L N]. destruct (Nat.eq_dec j s) as [->|Ne].
      * rewrite Nat.sub_diag in N. inversion N; subst. left. reflexivity.
      * right. split; [lia|]. replace (j - s) with (S (j - S s)) in N by lia. exact N.
Qed.

Lemma enumerate_In {A} (l : list A) j x :
  In (j, x) (enumerate l) <-> nth_error l j = Some x.
Proof.
  unfold enumerate. rewrite enumerate_from_In, Nat.sub_0_r.
  split; [tauto|]. split; [lia|assumption].
Qed.

Lemma enumerate_from_sorted {A} (l : list A) s :
  StronglySorted (fun x y => fst x < fst y) (combine (seq s (length l)) l).
Proof.
  revert s. induction l as [|a l IH]; intros s; cbn [length seq combine].
  - constructor.
  - constructor; [apply IH|].
    rewrite Forall_forall. intros [j x] H. apply enumerate_from_In in H.
    cbn [fst]. lia.
Qed.

Lemma enumerate_from_places {A} (l : list A) s :
  map fst (combine (seq s (length l)) l) = seq s (length l).
Proof.
  revert s. induction l as [|a l IH]; intros s; cbn [length seq combine map fst].
  - reflexivity.
  - rewrite IH. reflexivity.
Qed.

Lemma enumerate_length {A} (l : list A) : length (enumerate l) = length l.
Proof.
  unfold enumerate. rewrite length_combine, length_seq. lia.
Qed.

Lemma StronglySorted_map {A B} (f : A -> B) (R : B -> B -> Prop) l :
  StronglySorted (fun x y => R (f x) (f y)) l -> StronglySorted R (map f l).
Proof.
  induction 1 as [|x l S IH F]; cbn [map]; constructor; auto.
  rewrite Forall_forall in *. intros y Hy. apply in_map_iff in Hy.
  destruct Hy as (z & <- & Hz). auto.
Qed.

Lemma combine_map_self {A B} (f : A -> B) l :
  combine (map f l) l = map (fun x => (f x, x)) l.
Proof. induction l; cbn [map combine]; congruence. Qed.

Lemma mapM_pure {A B} (f : A -> result B) (g : A -> B) l :
  (forall x, In x l -> f x = Ok (g x)) -> mapM f l = Ok (map g l).
Proof.
  induction l as [|x l IH]; intros H; cbn [mapM map].
  - reflexivity.
  - rewrite (H x) by (left; reflexivity). cbn [bind].
    rewrite IH by (intros; apply H; right; assumption). reflexivity.
Qed.




Lemma precedes_leb ds a b :
  is_nan (dist_at ds a) = false -> is_nan (dist_at ds b) = false ->
  precedes ds a b -> (dist_at ds a <=? dist_at ds b)%float = true.
Proof.
  intros Na Nb [H|[H _]].
  - apply ltb_leb. assumption.
  - apply not_ltb_leb; assumption.
Qed.

Lemma eqb_leb x y : (x =? y)%float = true -> (x <=? y)%float = true.
Proof.
  rewrite eqb_rank, leb_rank. intros (? & ? & ?). auto.
Qed.


Section Row.
Variable acos : float -> float.
Variable d1 : descriptor.
Variable descriptors2 : list descriptor.
Hypothesis all_defined : forallb (defined_distance acos d1) descriptors2 = true.

Let ds := distances acos d1 descriptors2.
Let key (e : nat * descriptor) : float := acos (dot_value d1 (snd e)).
Let keyed : list (float * (nat * descriptor)) :=
  map (fun e => (key e, e)) (enumerate descriptors2).

Lemma angular_distance_defined d2 :
  In d2 descriptors2 ->
  angular_distance acos d1 d2 = Ok (acos (dot_value d1 d2)) /\
  is_nan (acos (dot_value d1 d2)) = false.
Proof.
  intros H. rewrite forallb_forall in all_defined.
  specialize (all_defined d2 H). unfold defined_distance in all_defined.
  unfold angular_distance, np_dot, math_acos in *.
  destruct (length d1 =? length d2); cbn [bind] in *; [|discriminate].
  destruct (is_nan (acos (dot_value d1 d2)) && negb (is_nan (dot_value d1 d2)));
    [discriminate|].
  destruct (is_infinity (acos (dot_value d1 d2)) && is_finite (dot_value d1 d2));
    [discriminate|].
  split; [reflexivity|]. apply negb_true_iff. assumption.
Qed.

Lemma distances_length : length ds = length descriptors2.
Proof. unfold ds, distances. apply length_map. Qed.

Lemma dist_at_nth j d2 :
  nth_error descriptors2 j = Some d2 -> dist_at ds j = acos (dot_value d1 d2).
Proof.
  intros H. unfold dist_at, ds, distances.
  apply nth_error_nth.
  exact (map_nth_error (fun d2 => acos (dot_value d1 d2)) j descriptors2 H).
Qed.

Lemma keyed_In x :
  In x keyed <->
  exists j d2, x = (dist_at ds j, (j, d2)) /\ nth_error descriptors2 j = Some d2.
Proof.
  unfold keyed. rewrite in_map_iff. split.
  - intros ([j d2] & <- & H). apply enumerate_In in H.
    exists j, d2. unfold key. cbn [snd]. rewrite (dist_at_nth j d2 H). auto.
  - intros (j & d2 & -> & H). exists (j, d2). unfold key. cbn [snd].
    rewrite (dist_at_nth j d2 H). split; [reflexivity|].
    apply enumerate_In. assumption.
Qed.

Lemma keyed_numbers : Forall (fun y => is_nan (fst y) = false) keyed.
Proof.
  rewrite Forall_forall. intros x H. apply keyed_In in H.
  destruct H as (j & d2 & -> & H). cbn [fst]. rewrite (dist_at_nth j d2 H).
  apply angular_distance_defined. eapply nth_error_In; eauto.
Qed.

Lemma keyed_places :
  StronglySorted (fun x y => fst (snd x) < fst (snd y)) keyed.
Proof.
  unfold keyed.
  apply (StronglySorted_map (fun e => (key e, e))
                            (fun x y => fst (snd x) < fst (snd y))).
  cbn [snd]. apply (enumerate_from_sorted descriptors2 0).
Qed.

Lemma sorted_keyed :
  sorted (fun d2 => angular_distance acos d1 (snd d2)) (enumerate descriptors2)
  = Ok (map snd (sort_keyed keyed)).
Proof.
  unfold sorted. rewrite (mapM_pure _ key).
  - cbn [bind]. rewrite combine_map_self. reflexivity.
  - intros [j d2] H. apply enumerate_In in H. cbn [snd]. unfold key. cbn [snd].
    apply angular_distance_defined. eapply nth_error_In; eauto.
Qed.

Lemma sort_keyed_keyed :
  StronglySorted (listed_before fst) (sort_keyed keyed) /\
  Permutation (sort_keyed keyed) keyed.
Proof. apply sort_keyed_spec; [apply keyed_numbers|apply keyed_places]. Qed.

Lemma keyed_length : length (sort_keyed keyed) = length descriptors2.
Proof.
  rewrite (Permutation_length (proj2 sort_keyed_keyed)).
  unfold keyed. rewrite length_map. apply enumerate_length.
Qed.

End Row.

Lemma distances_numbers acos descriptors2 d1 k :
  forallb (defined_distance acos d1) descriptors2 = true ->
  k < length descriptors2 ->
  is_nan (dist_at (distances acos d1 descriptors2) k) = false.
Proof.
  intros Def Hk. destruct (nth_error descriptors2 k) as [d2|] eqn:E.
  - rewrite (dist_at_nth acos d1 descriptors2 k d2 E).
    apply (angular_distance_defined acos d1 descriptors2 Def).
    eapply nth_error_In; eauto.
  - apply nth_error_None in E. lia.
Qed.

(** What one descriptor of image 1 does once all its distances are defined:
    it divides the distance of the nearest neighbour by that of the second
    nearest and tests the ratio. *)
Lemma match_row_neighbours acos descriptors2 threshold i d1 :
  2 <= length descriptors2 ->
  forallb (defined_distance acos d1) descriptors2 = true ->
  exists j j2,
    let ds := distances acos d1 descriptors2 in
    nearest ds j /\ second_nearest ds j j2 /\
    match_row acos descriptors2 threshold i d1
    = (ratio <- float_div (dist_at ds j) (dist_at ds j2) ;;
       Ok (if (ratio <=? threshold)%float
           then [(Z.of_nat i, Z.of_nat j)] else [])).
Proof.
  intros Len Def.
  pose proof (sort_keyed_keyed acos d1 descriptors2 Def) as [Sorted Perm].
  pose proof (keyed_length acos d1 descriptors2 Def) as SLen.
  pose proof (distances_length acos d1 descriptors2) as DLen.
  set (ds := distances acos d1 descriptors2) in *.
  set (keyed := map (fun e : nat * descriptor => (acos (dot_value d1 (snd e)), e))
                    (enumerate descriptors2)) in *.
  assert (InK : forall x, In x (sort_keyed keyed) ->
                  exists j d2, x = (dist_at ds j, (j, d2)) /\
                               nth_error descriptors2 j = Some d2).
  { intros x Hx. apply (keyed_In acos d1 descriptors2).
    eapply Permutation_in; eauto. }
  assert (Place : forall k, k < length descriptors2 ->
                    exists d2, In (dist_at ds k, (k, d2)) (sort_keyed keyed)).
  { intros k Hk. destruct (nth_error descriptors2 k) as [d2|] eqn:E.
    - exists d2. eapply Permutation_in; [symmetry; exact Perm|].
      apply (keyed_In acos d1 descriptors2). eauto.
    - apply nth_error_None in E. lia. }
  assert (Distinct : NoDup (map (fun x : float * (nat * descriptor) => fst (snd x))
                                (sort_keyed keyed))).
  { eapply Permutation_NoDup; [apply Permutation_map; symmetry; exact Perm|].
    unfold keyed. rewrite map_map. cbn [snd].
    unfold enumerate. rewrite enumerate_from_places. apply seq_NoDup. }
  destruct (sort_keyed keyed) as [|s0 [|s1 rest]] eqn:ES; cbn [length] in SLen; try lia.
  destruct (InK s0 (or_introl eq_refl)) as (j0 & e0 & -> & N0).
  destruct (InK s1 (or_intror (or_introl eq_refl))) as (j1 & e1 & -> & N1).
  assert (L0 : j0 < length descriptors2) by (apply nth_error_Some; congruence).
  assert (L1 : j1 < length descriptors2) by (apply nth_error_Some; congruence).
  cbn [map fst snd] in Distinct.
  assert (Ne : j1 <> j0).
  { inversion Distinct as [|? ? Hn _]; subst. intros ->. apply Hn. left. reflexivity. }
  inversion Sorted as [|? ? S1 F0]; subst. inversion S1 as [|? ? S2 F1]; subst.
  rewrite Forall_forall in F0, F1.
  assert (Before0 : forall k, k < length descriptors2 -> k <> j0 -> precedes ds j0 k).
  { intros k Hk Nk. destruct (Place k Hk) as (d2 & [E|Hin]).
    - inversion E; subst. congruence.
    - exact (F0 _ Hin). }
  assert (Before1 : forall k, k < length descriptors2 -> k <> j0 -> k <> j1 ->
                      precedes ds j1 k).
  { intros k Hk Nk0 Nk1. destruct (Place k Hk) as (d2 & [E|[E|Hin]]).
    - inversion E; subst. congruence.
    - inversion E; subst. congruence.
    - exact (F1 _ Hin). }
  exists j0, j1. cbn zeta.
  split; [split; [lia|rewrite DLen; assumption]|].
  split; [split; [lia|split; [assumption|rewrite DLen; assumption]]|].
  unfold match_row.
  rewrite (sorted_keyed acos d1 descriptors2 Def). fold keyed. rewrite ES.
  cbn [bind map py_index nth_error snd].
  destruct (angular_distance_defined acos d1 descriptors2 Def e0
              (nth_error_In _ _ N0)) as [A0 _].
  destruct (angular_distance_defined acos d1 descriptors2 Def e1
              (nth_error_In _ _ N1)) as [A1 _].
  rewrite A0, A1. cbn [bind fst].
  fold ds. rewrite <- (dist_at_nth acos d1 descriptors2 j0 e0 N0).
  rewrite <- (dist_at_nth acos d1 descriptors2 j1 e1 N1). fold ds.
  reflexivity.
Qed.






(** * Claims on FindBestMatches *)




(** ** Failures of the matcher *)

Lemma match_loop_row_raises acos descriptors2 threshold rows i d1 :
  In (i, d1) rows ->
  is_ok (match_row acos descriptors2 threshold i d1) = false ->
  exists e, match_loop acos descriptors2 threshold rows = Raise e.
Proof.
  induction rows as [|[i' d1'] rows IH]; intros Hin Row; [contradiction|].
  cbn [match_loop].
  destruct (match_row acos descriptors2 threshold i' d1') as [new|e] eqn:R;
    cbn [bind]; [|eauto].
  destruct Hin as [E|Hin].
  - inversion E; subst. rewrite R in Row. discriminate.
  - destruct (IH Hin Row) as (e & ->). cbn [bind]. eauto.
Qed.

Lemma mapM_raises {A B} (f : A -> result B) l x :
  In x l -> is_ok (f x) = false -> is_ok (mapM f l) = false.
Proof.
  induction l as [|a l IH]; intros Hin Hx; [contradiction|]. cbn [mapM].
  destruct (f a) as [b|e] eqn:Fa; cbn [bind]; [|reflexivity].
  destruct Hin as [->|Hin]; [rewrite Fa in Hx; discriminate|].
  specialize (IH Hin Hx). destruct (mapM f l); [discriminate|reflexivity].
Qed.

Lemma match_row_distance_raises acos descriptors2 threshold i d1 d2 :
  In d2 descriptors2 ->
  is_ok (angular_distance acos d1 d2) = false ->
  is_ok (match_row acos descriptors2 threshold i d1) = false.
Proof.
  intros Hin Dist. unfold match_row, sorted.
  destruct (In_nth_error _ _ Hin) as (j & Hj). apply enumerate_In in Hj.
  pose proof (mapM_raises (fun e => angular_distance acos d1 (snd e))
                (enumerate descriptors2) (j, d2) Hj Dist) as M.
  destruct (mapM _ (enumerate descriptors2)); [discriminate|reflexivity].
Qed.

(** C4 (as the code has it): the dot product goes to [acos] as computed,
    without clamping.  When it lies outside [[-1, 1]] for some compared
    pair, where the library's [acos] returns NaN, the distance raises a
    domain error and the call does not complete. *)
Theorem FindBestMatches_domain_error
        acos descriptors1 descriptors2 threshold d1 d2 :
  (forall x, (x <? -1)%float || (1 <? x)%float = true -> is_nan (acos x) = true) ->
  In d1 descriptors1 -> In d2 descriptors2 ->
  (dot_value d1 d2 <? -1)%float || (1 <? dot_value d1 d2)%float = true ->
  angular_distance acos d1 d2 = Raise ValueError /\
  exists e, FindBestMatches acos descriptors1 descriptors2 threshold = Raise e.
Proof.
  intros Lib H1 H2 Out.
  assert (Dist : angular_distance acos d1 d2 = Raise ValueError).
  { unfold angular_distance, np_dot.
    destruct (length d1 =? length d2); cbn [bind]; [|reflexivity].
    unfold math_acos. rewrite (Lib _ Out).
    assert (N : is_nan (dot_value d1 d2) = false).
    { apply orb_true_iff in Out. destruct Out as [O|O];
        apply ltb_is_nan in O; tauto. }
    rewrite N. reflexivity. }
  split; [exact Dist|].
  destruct (In_nth_error _ _ H1) as (i & Hi). apply enumerate_In in Hi.
  apply (match_loop_row_raises acos descriptors2 threshold _ i d1 Hi).
  apply (match_row_distance_raises acos descriptors2 threshold i d1 d2 H2).
  rewrite Dist. reflexivity.
Qed.

Lemma acos_table_domain x :
  (x <? -1)%float || (1 <? x)%float = true -> is_nan (acos_table x) = true.
Proof. intros H. unfold acos_table. rewrite H. reflexivity. Qed.

Lemma FindBestMatches_domain_error_witness :
  angular_distance acos_table overshoot_descriptor overshoot_descriptor
  = Raise ValueError /\
  exists e, FindBestMatches acos_table [overshoot_descriptor]
                            [[1; 0]%float; overshoot_descriptor] 0.75 = Raise e.
Proof.
  apply (FindBestMatches_domain_error acos_table [overshoot_descriptor]
           [[1; 0]%float; overshoot_descriptor] 0.75
           overshoot_descriptor overshoot_descriptor).
  - exact acos_table_domain.
  - simpl. auto.
  - simpl. auto.
  - reflexivity.
Defined.

(** C4, counterexample: a descriptor of norm [1.0] whose dot product with
    itself exceeds 1 in binary64.  The claim has the product clamped and
    no domain error; the call raises [ValueError]. *)
Lemma FindBestMatches_overshoot :
  np_linalg_norm (0x1.89d89d89d89d9p-2, 0x1.d89d89d89d89ep-1)%float = 1%float /\
  dot_value overshoot_descriptor overshoot_descriptor = 0x1.0000000000001p+0%float /\
  FindBestMatches acos_table [overshoot_descriptor]
                  [overshoot_descriptor; [1; 0]%float] 0.75 = Raise ValueError.
Proof. repeat split. Qed.

(** C5 (as the code has it): with fewer than two descriptors in image 2
    and at least one in image 1 the call does not complete.  It raises
    [IndexError] at the missing nearest or second-nearest neighbour, or
    [ValueError] if the one distance cannot be computed.  With no
    descriptor in image 1 it returns the empty list. *)
Theorem FindBestMatches_too_few acos descriptors1 descriptors2 threshold :
  length descriptors2 < 2 ->
  (descriptors1 = [] ->
   FindBestMatches acos descriptors1 descriptors2 threshold = Ok []) /\
  (descriptors1 <> [] ->
   FindBestMatches acos descriptors1 descriptors2 threshold = Raise IndexError \/
   FindBestMatches acos descriptors1 descriptors2 threshold = Raise ValueError).
Proof.
  intros Len. split.
  - intros ->. reflexivity.
  - intros Ne. destruct descriptors1 as [|d1 rest]; [congruence|].
    unfold FindBestMatches, enumerate. cbn [length seq combine match_loop].
    unfold match_row, sorted.
    destruct descriptors2 as [|d2 [|d3 more]]; cbn [length] in Len; try lia.
    + left. reflexivity.
    + cbn [enumerate length seq combine mapM snd].
      unfold enumerate. cbn [length seq combine mapM snd].
      assert (V : forall e, angular_distance acos d1 d2 = Raise e -> e = ValueError).
      { unfold angular_distance, np_dot, math_acos. intros e.
        destruct (length d1 =? length d2); cbn [bind]; [|congruence].
        destruct (_ && _); [congruence|]. destruct (_ && _); congruence. }
      destruct (angular_distance acos d1 d2) as [a|e] eqn:D; cbn [bind].
      * left. cbn. rewrite D. reflexivity.
      * right. rewrite (V e eq_refl). reflexivity.
Qed.

Lemma FindBestMatches_too_few_witness :
  FindBestMatches acos_table [] [[1; 0; 0; 0]%float] 0.75 = Ok [] /\
  (FindBestMatches acos_table example_descriptors1 [[1; 0; 0; 0]%float] 0.75
   = Raise IndexError \/
   FindBestMatches acos_table example_descriptors1 [[1; 0; 0; 0]%float] 0.75
   = Raise ValueError).
Proof.
  split.
  - refine (proj1 (FindBestMatches_too_few acos_table [] [[1; 0; 0; 0]%float] 0.75 _) _).
    + simpl. lia.
    + reflexivity.
  - refine (proj2 (FindBestMatches_too_few acos_table example_descriptors1
                     [[1; 0; 0; 0]%float] 0.75 _) _).
    + simpl. lia.
    + discriminate.
Defined.

(** C5, counterexample: one descriptor in image 2.  The claim has the call
    complete with no match; it raises [IndexError]. *)
Lemma FindBestMatches_single_descriptor :
  FindBestMatches acos_table example_descriptors1 [[1; 0; 0; 0]%float] 0.75
  = Raise IndexError.
Proof. reflexivity. Qed.

(* ================================================================== *)
(** * Further facts about binary64 arithmetic *)

Lemma SFmul_one_r X : valid_binary X = true -> SF64mul X sf_one = X.
Proof.
  destruct X as [s|s| |s m e]; intros V.
  - destruct s; reflexivity.
  - destruct s; reflexivity.
  - reflexivity.
  - unfold SF64mul, sf_one, SFmul. rewrite xorb_false_r, Pos.mul_comm.
    change (Pos.mul 4503599627370496 m) with (Pos.shiftl_nat m 52).
    replace (e + -52)%Z with (e - Z.of_nat 52)%Z by lia.
    apply round_exact. exact V.
Qed.

(** [x * 1.0] is [x], for every float. *)
Lemma mul_one_r x : (x * 1)%float = x.
Proof.
  apply Prim2SF_inj. rewrite mul_spec. change (Prim2SF 1) with sf_one.
  apply SFmul_one_r, Prim2SF_valid.
Qed.

Lemma SFdiv_one_r_any X : valid_binary X = true -> SF64div X sf_one = X.
Proof.
  destruct X as [s|s| |s m e] eqn:E; intros V.
  - destruct s; reflexivity.
  - destruct s; reflexivity.
  - reflexivity.
  - apply SFdiv_one_r; [exact V|reflexivity].
Qed.

Lemma div_one_r x : (x / 1)%float = x.
Proof.
  apply Prim2SF_inj. rewrite div_spec. change (Prim2SF 1) with sf_one.
  apply SFdiv_one_r_any, Prim2SF_valid.
Qed.

Lemma is_zero_spec x : is_zero x = true <-> exists s, Prim2SF x = S754_zero s.
Proof.
  unfold is_zero. rewrite eqb_spec. change (Prim2SF zero) with (S754_zero false).
  destruct (Prim2SF x) as [[]|[]| |[] m e]; cbn; split;
    try discriminate; try (intros [? ?]; discriminate); eauto.
Qed.

Lemma is_zero_false_spec x :
  is_zero x = false <-> forall s, Prim2SF x <> S754_zero s.
Proof.
  split.
  - intros H s E. assert (is_zero x = true) by (apply is_zero_spec; eauto). congruence.
  - intros H. destruct (is_zero x) eqn:E; [|reflexivity].
    apply is_zero_spec in E. destruct E as [s E]. destruct (H s E).
Qed.

(** ** Division by zero and numbers that are not finite *)

Lemma div_zero_not_finite x w :
  is_zero w = true -> is_finite (x / w) = false.
Proof.
  intros Z. apply is_zero_spec in Z. destruct Z as [s Z].
  rewrite is_finite_spec, div_spec, Z.
  destruct (Prim2SF x) as [[]|[]| |[] m e], s; reflexivity.
Qed.

Lemma sub_not_finite_r r p : is_finite p = false -> is_finite (r - p) = false.
Proof.
  rewrite !is_finite_spec, sub_spec.
  destruct (Prim2SF p) as [[]|[]| |[] m e]; try discriminate; intros _;
    destruct (Prim2SF r) as [[]|[]| |[] m' e']; reflexivity.
Qed.

Lemma square_not_finite d :
  is_finite d = false -> sf_nan_or_inf (Prim2SF (d * d)) = true.
Proof.
  rewrite is_finite_spec, mul_spec.
  destruct (Prim2SF d) as [[]|[]| |[] m e]; try discriminate; reflexivity.
Qed.

(** A square is never the negative infinity. *)
Lemma square_not_neg_inf d : Prim2SF (d * d) <> S754_infinity true.
Proof.
  rewrite mul_spec.
  destruct (Prim2SF d) as [[]|[]| |s m e]; try discriminate.
  unfold SF64mul, SFmul, binary_round_aux. rewrite xorb_nilpotent.
  destruct (shr_fexp _ _ _ _ _) as [mrs' e'].
  destruct (shr_fexp _ _ _ _ _) as [mrs'' e''].
  destruct (shr_m mrs''); try discriminate.
  destruct (_ <=? _)%Z; discriminate.
Qed.

Lemma add_nan_or_inf_l a b :
  sf_nan_or_inf (Prim2SF a) = true -> Prim2SF b <> S754_infinity true ->
  sf_nan_or_inf (Prim2SF (a + b)) = true.
Proof.
  rewrite add_spec. intros Ha Hb.
  destruct (Prim2SF a) as [[]|[]| |[] m e]; try discriminate;
    destruct (Prim2SF b) as [[]|[]| |[] m' e']; try reflexivity; congruence.
Qed.

Lemma add_nan_or_inf_r a b :
  Prim2SF a <> S754_infinity true -> sf_nan_or_inf (Prim2SF b) = true ->
  sf_nan_or_inf (Prim2SF (a + b)) = true.
Proof.
  rewrite add_spec. intros Ha Hb.
  destruct (Prim2SF b) as [[]|[]| |[] m e]; try discriminate;
    destruct (Prim2SF a) as [[]|[]| |[] m' e']; try reflexivity; congruence.
Qed.

Lemma sqrt_nan_or_inf a :
  sf_nan_or_inf (Prim2SF a) = true -> sf_nan_or_inf (Prim2SF (sqrt a)) = true.
Proof.
  rewrite sqrt_spec.
  destruct (Prim2SF a) as [[]|[]| |[] m e]; try discriminate; reflexivity.
Qed.

Lemma nan_or_inf_not_leb a tol :
  sf_nan_or_inf (Prim2SF a) = true -> is_finite tol = true ->
  (a <=? tol)%float = false.
Proof.
  rewrite is_finite_spec, leb_spec. unfold SFleb.
  destruct (Prim2SF a) as [[]|[]| |[] m e]; try discriminate; intros _;
    destruct (Prim2SF tol) as [[]|[]| |[] m' e']; try discriminate; reflexivity.
Qed.

(** The distance to a point with a coordinate that is not finite is not
    within any finite tolerance. *)
Lemma norm_not_finite (r p : point) tol :
  is_finite (fst p) && is_finite (snd p) = false ->
  is_finite tol = true ->
  (np_linalg_norm (point_sub r p) <=? tol)%float = false.
Proof.
  intros F T. apply nan_or_inf_not_leb; [|exact T].
  unfold np_linalg_norm, point_sub. cbn [fst snd].
  apply sqrt_nan_or_inf. apply andb_false_iff in F. destruct F as [F|F].
  - apply add_nan_or_inf_l; [|apply square_not_neg_inf].
    apply square_not_finite, sub_not_finite_r, F.
  - apply add_nan_or_inf_r; [apply square_not_neg_inf|].
    apply square_not_finite, sub_not_finite_r, F.
Qed.

(** ** Thresholds that nothing meets *)

Lemma zero_leb_abs x : is_nan (abs x) = false -> (0 <=? abs x)%float = true.
Proof.
  rewrite <- Prim2SF_nan, leb_spec, abs_spec.
  change (Prim2SF 0) with (S754_zero false).
  destruct (Prim2SF x) as [[]|[]| |[] m e]; try discriminate; reflexivity.
Qed.

Lemma zero_leb_sqrt y : is_nan (sqrt y) = false -> (0 <=? sqrt y)%float = true.
Proof.
  rewrite <- Prim2SF_nan, leb_spec, sqrt_spec.
  change (Prim2SF 0) with (S754_zero false).
  destruct (Prim2SF y) as [[]|[]| |[] m e]; try discriminate; try reflexivity.
  unfold SF64sqrt, SFsqrt.
  destruct (SFsqrt_core_binary _ _ _ _) as [[mz ez] lz].
  unfold binary_round_aux.
  destruct (shr_fexp _ _ _ _ _) as [mrs' e'].
  destruct (shr_fexp _ _ _ _ _) as [mrs'' e''].
  destruct (shr_m mrs''); try discriminate; try reflexivity.
  destruct (_ <=? _)%Z; reflexivity.
Qed.

(** An absolute value is within no threshold that is negative or NaN. *)
Lemma abs_not_within x t :
  (0 <=? t)%float = false -> (abs x <=? t)%float = false.
Proof.
  intros T. destruct (abs x <=? t)%float eqn:E; [|reflexivity].
  rewrite <- T. symmetry. eapply leb_trans; [|exact E].
  apply zero_leb_abs. apply (leb_is_nan _ _ E).
Qed.

Lemma sqrt_not_within y t :
  (0 <=? t)%float = false -> (sqrt y <=? t)%float = false.
Proof.
  intros T. destruct (sqrt y <=? t)%float eqn:E; [|reflexivity].
  rewrite <- T. symmetry. eapply leb_trans; [|exact E].
  apply zero_leb_sqrt. apply (leb_is_nan _ _ E).
Qed.

(** ** The distance between a point and itself *)

Lemma sub_plus_zero x :
  is_finite x = true -> is_zero (x - (x + 0)) = true.
Proof.
  rewrite is_finite_spec. intros F. apply is_zero_spec.
  rewrite sub_spec, Prim2SF_plus_zero.
  destruct (Prim2SF x) as [[]|[]| |s m e]; try discriminate; cbn; eauto.
  unfold SF64sub, SFsub.
  rewrite Z.min_id. unfold shl_align. rewrite !Z.sub_diag. cbn. eauto.
Qed.

Lemma square_zero d : is_zero d = true -> (d * d)%float = 0%float.
Proof.
  intros Z. apply is_zero_spec in Z. destruct Z as [s Z].
  apply Prim2SF_inj. rewrite mul_spec, Z. destruct s; reflexivity.
Qed.

Lemma norm_zero (v : point) :
  is_zero (fst v) = true -> is_zero (snd v) = true -> np_linalg_norm v = 0%float.
Proof.
  intros Zx Zy. unfold np_linalg_norm.
  rewrite (square_zero _ Zx), (square_zero _ Zy). reflexivity.
Qed.

(** ** Adding a translation *)

Lemma SFadd_through_zero_l X b T :
  sf_finite X = true ->
  SF64add (SF64add X (S754_zero b)) T = SF64add X T \/
  exists s s', SF64add (SF64add X (S754_zero b)) T = S754_zero s /\
               SF64add X T = S754_zero s'.
Proof.
  destruct X as [a|a| |a m e]; try discriminate; intros _.
  - destruct T as [d|d| |d m' e'].
    + right. destruct a, b, d; cbn; eauto.
    + left. destruct a, b, d; reflexivity.
    + left. destruct a, b; reflexivity.
    + left. destruct a, b; reflexivity.
  - left. reflexivity.
Qed.

Lemma SFadd_through_zero_r Y b T :
  sf_finite Y = true ->
  SF64add (SF64add (S754_zero b) Y) T = SF64add Y T \/
  exists s s', SF64add (SF64add (S754_zero b) Y) T = S754_zero s /\
               SF64add Y T = S754_zero s'.
Proof.
  destruct Y as [a|a| |a m e]; try discriminate; intros _.
  - destruct T as [d|d| |d m' e'].
    + right. destruct a, b, d; cbn; eauto.
    + left. destruct a, b, d; reflexivity.
    + left. destruct a, b; reflexivity.
    + left. destruct a, b; reflexivity.
  - left. reflexivity.
Qed.

(* ================================================================== *)
(** * Further properties of KeypointProjection *)

Lemma translation_x x y tx :
  is_finite x = true -> is_finite y = true ->
  same_value ((1 * x + 0 * y + tx * 1) / (0 * x + 0 * y + 1 * 1))%float (x + tx)%float.
Proof.
  intros Fx Fy.
  assert (D : (0 * x + 0 * y + 1 * 1)%float = 1%float).
  { apply Prim2SF_inj. rewrite identity_denominator by assumption. reflexivity. }
  rewrite D, div_one_r, mul_one_r.
  assert (M : Prim2SF (1 * x) = Prim2SF x).
  { rewrite mul_spec. change (Prim2SF 1) with sf_one.
    apply SFmul_one_l; [apply Prim2SF_valid|rewrite <- is_finite_spec; assumption]. }
  rewrite is_finite_spec in Fx, Fy.
  destruct (SFmul_zero_l _ Fy) as [b Hb].
  destruct (SFadd_through_zero_l (Prim2SF x) b (Prim2SF tx) Fx) as [E|(s & s' & E1 & E2)].
  - left. apply Prim2SF_inj.
    rewrite !add_spec, M, mul_spec. change (Prim2SF 0) with (S754_zero false).
    rewrite Hb. exact E.
  - right. split; apply is_zero_spec.
    + exists s. rewrite !add_spec, M, mul_spec. change (Prim2SF 0) with (S754_zero false).
      rewrite Hb. exact E1.
    + exists s'. rewrite add_spec. exact E2.
Qed.

Lemma translation_y x y ty :
  is_finite x = true -> is_finite y = true ->
  same_value ((0 * x + 1 * y + ty * 1) / (0 * x + 0 * y + 1 * 1))%float (y + ty)%float.
Proof.
  intros Fx Fy.
  assert (D : (0 * x + 0 * y + 1 * 1)%float = 1%float).
  { apply Prim2SF_inj. rewrite identity_denominator by assumption. reflexivity. }
  rewrite D, div_one_r, mul_one_r.
  assert (M : Prim2SF (1 * y) = Prim2SF y).
  { rewrite mul_spec. change (Prim2SF 1) with sf_one.
    apply SFmul_one_l; [apply Prim2SF_valid|rewrite <- is_finite_spec; assumption]. }
  rewrite is_finite_spec in Fx, Fy.
  destruct (SFmul_zero_l _ Fx) as [b Hb].
  destruct (SFadd_through_zero_r (Prim2SF y) b (Prim2SF ty) Fy) as [E|(s & s' & E1 & E2)].
  - left. apply Prim2SF_inj.
    rewrite !add_spec, M, mul_spec. change (Prim2SF 0) with (S754_zero false).
    rewrite Hb. exact E.
  - right. split; apply is_zero_spec.
    + exists s. rewrite !add_spec, M, mul_spec. change (Prim2SF 0) with (S754_zero false).
      rewrite Hb. exact E1.
    + exists s'. rewrite add_spec. exact E2.
Qed.

(** X1: projecting points with finite coordinates through the translation
    homography [[1,0,tx],[0,1,ty],[0,0,1]] returns [(x + tx, y + ty)] for
    every point [(x, y)], computed in binary64 (up to the sign of a zero). *)
Theorem KeypointProjection_translation_sum (xy_points : list point) tx ty :
  forallb finite_point xy_points = true ->
  exists out,
    KeypointProjection xy_points (Some (translation tx ty)) = Ok out /\
    Forall2 (fun p q => same_value (fst q) (fst p + tx)%float /\
                        same_value (snd q) (snd p + ty)%float) xy_points out.
Proof.
  intros F. eexists. split; [reflexivity|].
  induction xy_points as [|[x y] ps IH]; cbn [map]; constructor.
  - cbn [forallb] in F. apply andb_true_iff in F. destruct F as [Fp _].
    unfold finite_point in Fp. cbn [fst snd] in Fp.
    apply andb_true_iff in Fp. destruct Fp as [Fx Fy].
    cbn [project_homogeneous translation fst snd].
    split; [apply translation_x|apply translation_y]; assumption.
  - apply IH. cbn [forallb] in F. apply andb_true_iff in F. tauto.
Qed.

Lemma KeypointProjection_translation_sum_witness :
  forallb finite_point [(1, 2); (-3, 0.5); (0, -4)]%float = true /\
  exists out,
    KeypointProjection [(1, 2); (-3, 0.5); (0, -4)]%float (Some (translation 3 4)) = Ok out /\
    Forall2 (fun p q => same_value (fst q) (fst p + 3)%float /\
                        same_value (snd q) (snd p + 4)%float)
            [(1, 2); (-3, 0.5); (0, -4)]%float out.
Proof.
  split; [reflexivity|].
  apply (KeypointProjection_translation_sum [(1, 2); (-3, 0.5); (0, -4)]%float 3 4).
  reflexivity.
Defined.

(** X2: for a matrix argument the projector never raises and returns one
    point per input point; a point whose homogeneous coordinate [w'] is
    zero is not an error: both its output coordinates are infinite or NaN. *)
Theorem KeypointProjection_total (xy_points : list point) (h : matrix) :
  exists out,
    KeypointProjection xy_points (Some h) = Ok out /\
    length out = length xy_points /\
    forall j p q,
      nth_error xy_points j = Some p -> nth_error out j = Some q ->
      is_zero (snd (project_homogeneous h p)) = true ->
      is_finite (fst q) = false /\ is_finite (snd q) = false.
Proof.
  eexists. split; [reflexivity|]. split; [apply length_map|].
  intros j p q Hp Hq Z.
  rewrite nth_error_map, Hp in Hq. cbn [option_map] in Hq.
  inversion Hq; subst; clear Hq.
  destruct (project_homogeneous h p) as [[x' y'] w']. cbn [fst snd] in *.
  split; apply div_zero_not_finite; assumption.
Qed.

Lemma KeypointProjection_total_witness :
  exists out,
    KeypointProjection example_src (Some flattening) = Ok out /\
    length out = length example_src /\
    forall j p q,
      nth_error example_src j = Some p -> nth_error out j = Some q ->
      is_zero (snd (project_homogeneous flattening p)) = true ->
      is_finite (fst q) = false /\ is_finite (snd q) = false.
Proof. apply (KeypointProjection_total example_src flattening). Defined.

(* ================================================================== *)
(** * Subsequences *)

Lemma subseq_nil_l {A} (l : list A) : subseq [] l.
Proof. induction l; constructor; assumption. Qed.

Lemma subseq_refl {A} (l : list A) : subseq l l.
Proof. induction l; constructor; assumption. Qed.

Lemma subseq_In {A} (l1 l2 : list A) x : subseq l1 l2 -> In x l1 -> In x l2.
Proof.
  induction 1 as [|y l1 l2 S IH|y l1 l2 S IH]; cbn [In]; intros H.
  - assumption.
  - right. auto.
  - destruct H; [left|right]; auto.
Qed.

Lemma subseq_length {A} (l1 l2 : list A) : subseq l1 l2 -> length l1 <= length l2.
Proof. induction 1; cbn [length]; lia. Qed.

Lemma subseq_NoDup {A} (l1 l2 : list A) : subseq l1 l2 -> NoDup l2 -> NoDup l1.
Proof.
  induction 1 as [|y l1 l2 S IH|y l1 l2 S IH]; intros N.
  - assumption.
  - inversion N; subst. auto.
  - inversion N as [|? ? Hn N']; subst. constructor; [|auto].
    intros H. apply Hn. eapply subseq_In; eauto.
Qed.

Lemma subseq_sorted {A} (R : A -> A -> Prop) (l1 l2 : list A) :
  subseq l1 l2 -> StronglySorted R l2 -> StronglySorted R l1.
Proof.
  induction 1 as [|y l1 l2 S IH|y l1 l2 S IH]; intros Hs.
  - assumption.
  - inversion Hs; subst. auto.
  - inversion Hs as [|? ? Hs' F]; subst. constructor; [auto|].
    rewrite Forall_forall in *. intros x Hx. apply F. eapply subseq_In; eauto.
Qed.

Lemma filterM_subseq {A} (f : A -> result bool) xs ys :
  filterM f xs = Ok ys -> subseq ys xs.
Proof.
  revert ys. induction xs as [|x xs IH]; cbn [filterM]; intros ys H.
  - inversion H; subst. constructor.
  - destruct (f x) as [b|e]; cbn [bind] in H; [|discriminate].
    destruct (filterM f xs) as [zs|e]; cbn [bind] in H; [|discriminate].
    inversion H; subst. destruct b; [apply subseq_keep|apply subseq_skip]; auto.
Qed.

(** * The first longest set *)

Lemma fold_keep_larger_first {A} (sets : list (list A)) largest :
  let best := fold_left keep_larger sets largest in
  (best = largest /\ forall s, In s sets -> length s <= length largest) \/
  exists before after,
    sets = before ++ best :: after /\
    (forall s, In s before -> length s < length best) /\
    length largest < length best /\
    (forall s, In s after -> length s <= length best).
Proof.
  revert largest. induction sets as [|c sets IH]; intros largest; cbn zeta; cbn [fold_left].
  - left. split; [reflexivity|]. intros ? [].
  - specialize (IH (keep_larger largest c)). cbn zeta in IH.
    pose proof (keep_larger_length largest c) as KL.
    destruct IH as [[E Le]|(before & after & E & B & L & Af)].
    + destruct (Nat.ltb_spec (length largest) (length c)) as [Lt|Ge].
      * assert (K : keep_larger largest c = c).
        { unfold keep_larger. apply Nat.ltb_lt in Lt. rewrite Lt. reflexivity. }
        rewrite K in *. right. exists [], sets. rewrite E. cbn [app].
        split; [reflexivity|]. split; [intros ? []|]. split; assumption.
      * assert (K : keep_larger largest c = largest).
        { unfold keep_larger. apply Nat.ltb_ge in Ge. rewrite Ge. reflexivity. }
        rewrite K in *. left. split; [assumption|].
        intros s [<-|Hs]; [assumption|auto].
    + right. exists (c :: before), after. rewrite E at 1. cbn [app].
      split; [reflexivity|]. split; [|split; [lia|assumption]].
      intros s [<-|Hs]; [lia|auto].
Qed.

Lemma fold_keep_larger_first_longest {A} (sets : list (list A)) :
  first_longest sets (fold_left keep_larger sets []).
Proof.
  destruct (fold_keep_larger_first sets (@nil A)) as [[E Le]|(before & after & E & B & _ & Af)].
  - left. split; [assumption|]. intros s Hs. specialize (Le s Hs).
    destruct s; [reflexivity|]. cbn in Le. lia.
  - right. exists before, after. auto.
Qed.

(** * Further properties of RANSACFilter *)

Lemma filterM_first_error {A} (f : A -> result bool) xs x e0 :
  In x xs -> is_ok (f x) = false ->
  (forall y e, f y = Raise e -> e = e0) ->
  filterM f xs = Raise e0.
Proof.
  intros Hin Bad Only. induction xs as [|a xs IH]; [contradiction|].
  cbn [filterM]. destruct (f a) as [b|e] eqn:Fa; cbn [bind].
  - destruct Hin as [->|Hin]; [rewrite Fa in Bad; discriminate|].
    rewrite (IH Hin). reflexivity.
  - rewrite (Only a e Fa). reflexivity.
Qed.

Section FilterMore.
Variables (matched_pairs : list match_pair) (keypoints1 keypoints2 : list keypoint).
Variables orient_agreement scale_agreement : float.

Let consensus (sel : match_pair) : result (list match_pair) :=
  consensus_set matched_pairs keypoints1 keypoints2
                orient_agreement scale_agreement sel.

Lemma filter_loop_fold sels largest best :
  filter_loop matched_pairs keypoints1 keypoints2 orient_agreement scale_agreement
              sels largest = Ok best <->
  exists sets, mapM consensus sels = Ok sets /\
               best = fold_left keep_larger sets largest.
Proof.
  revert largest. induction sels as [|sel rest IH]; intros largest;
    cbn [filter_loop mapM].
  - split.
    + intros H. inversion H; subst. exists []. split; reflexivity.
    + intros (sets & H & ->). inversion H; subst. reflexivity.
  - fold (consensus sel). destruct (consensus sel) as [c|e]; cbn [bind].
    + rewrite IH. split.
      * intros (sets & H & ->). exists (c :: sets). rewrite H. split; reflexivity.
      * intros (sets & H & ->).
        destruct (mapM consensus rest) as [sets'|e]; cbn [bind] in H; [|discriminate].
        inversion H; subst. exists sets'. split; reflexivity.
    + split; [discriminate|]. intros (sets & H & _). discriminate.
Qed.

Lemma consensus_set_subseq sel cs :
  consensus sel = Ok cs -> subseq cs matched_pairs.
Proof.
  unfold consensus, consensus_set. intros H.
  destruct (match_rows keypoints1 keypoints2 sel); cbn [bind] in H; [|discriminate].
  eapply filterM_subseq; eauto.
Qed.

Lemma filter_loop_subseq sels largest best :
  filter_loop matched_pairs keypoints1 keypoints2 orient_agreement scale_agreement
              sels largest = Ok best ->
  subseq largest matched_pairs -> subseq best matched_pairs.
Proof.
  revert largest. induction sels as [|sel rest IH]; cbn [filter_loop]; intros largest H L.
  - inversion H; subst. exact L.
  - fold (consensus sel) in H.
    destruct (consensus sel) as [cs|e] eqn:E; cbn [bind] in H; [|discriminate].
    apply (IH _ H).
    destruct (keep_larger_cases largest cs) as [-> | ->]; [exact L|].
    apply consensus_set_subseq with (sel := sel). exact E.
Qed.

Lemma match_rows_raises m e :
  match_rows keypoints1 keypoints2 m = Raise e -> e = IndexError.
Proof.
  unfold match_rows, np_index, py_index. intros H.
  repeat match type of H with
         | context [if ?c then _ else _] => destruct c
         | context [match ?c with Some _ => _ | None => _ end] => destruct c
         end; cbn [bind] in H; congruence.
Qed.

Lemma consensus_set_dangling sel m :
  In m matched_pairs ->
  is_ok (match_rows keypoints1 keypoints2 m) = false ->
  consensus sel = Raise IndexError.
Proof.
  intros Hin Bad. unfold consensus, consensus_set.
  destruct (match_rows keypoints1 keypoints2 sel) as [s|e] eqn:Es; cbn [bind].
  - apply (filterM_first_error _ matched_pairs m); [exact Hin| |].
    + destruct (match_rows keypoints1 keypoints2 m); [discriminate|reflexivity].
    + intros y e. destruct (match_rows keypoints1 keypoints2 y) as [k|e'] eqn:Ey;
        cbn [bind]; [discriminate|].
      intros H. inversion H; subst. eapply match_rows_raises; eauto.
  - rewrite (match_rows_raises sel e Es). reflexivity.
Qed.

Lemma consensus_set_rejecting sel :
  rows_exist keypoints1 keypoints2 matched_pairs = true ->
  In sel matched_pairs ->
  (0 <=? orient_agreement)%float = false \/ (0 <=? scale_agreement)%float = false ->
  consensus sel = Ok [].
Proof.
  intros R Hin T. unfold rows_exist in R. rewrite forallb_forall in R.
  unfold consensus, consensus_set.
  pose proof (R sel Hin) as Rs.
  destruct (match_rows keypoints1 keypoints2 sel) as [s|e]; [|discriminate]. cbn [bind].
  assert (G : forall l, (forall m, In m l -> In m matched_pairs) ->
                filterM (fun m => k <- match_rows keypoints1 keypoints2 m ;;
                                  Ok (agrees orient_agreement scale_agreement
                                        (kp_orientation (fst s) - kp_orientation (snd s))
                                        (kp_scale (fst s) / kp_scale (snd s)) k)) l
                = Ok []).
  { induction l as [|a l IH]; intros Hl; cbn [filterM]; [reflexivity|].
    pose proof (R a (Hl a (or_introl eq_refl))) as Ra.
    destruct (match_rows keypoints1 keypoints2 a) as [k|e]; [|discriminate]. cbn [bind].
    rewrite IH by (intros; apply Hl; right; assumption). cbn [bind].
    assert (A : agrees orient_agreement scale_agreement
                       (kp_orientation (fst s) - kp_orientation (snd s))
                       (kp_scale (fst s) / kp_scale (snd s)) k = false).
    { unfold agrees. destruct T as [T|T].
      - rewrite (abs_not_within _ _ T). reflexivity.
      - rewrite (abs_not_within _ _ T). apply andb_false_r. }
    rewrite A. reflexivity. }
  apply G. auto.
Qed.
End FilterMore.

(** X3: whenever the consensus filter returns, its result is the input
    match list with some matches left out: the matches keep their order,
    none is invented, and a list without duplicates stays without. *)
Theorem RANSACFilter_subsequence
        draw matched_pairs keypoints1 keypoints2 orient_agreement scale_agreement
        largest_set :
  RANSACFilter draw matched_pairs keypoints1 keypoints2
               orient_agreement scale_agreement = Ok largest_set ->
  subseq largest_set matched_pairs /\
  length largest_set <= length matched_pairs /\
  (NoDup matched_pairs -> NoDup largest_set).
Proof.
  unfold RANSACFilter. intros H.
  destruct (random_sample draw matched_pairs 10) as [sels|]; cbn [bind] in H;
    [|discriminate].
  assert (S : subseq largest_set matched_pairs).
  { eapply filter_loop_subseq; eauto. apply subseq_nil_l. }
  split; [exact S|]. split; [apply subseq_length; exact S|].
  apply subseq_NoDup. exact S.
Qed.

Lemma RANSACFilter_subsequence_witness :
  subseq (firstn 9 example_matches) example_matches /\
  length (firstn 9 example_matches) <= length example_matches /\
  (NoDup example_matches -> NoDup (firstn 9 example_matches)).
Proof.
  apply (RANSACFilter_subsequence example_draw example_matches
           example_keypoints1 example_keypoints2 30 0.5).
  reflexivity.
Defined.

(** X4: the consensus filter returns the first of the longest consensus
    sets of its samples, taken in the order drawn: a later set replaces the
    current one only when it is strictly longer. *)
Theorem RANSACFilter_first_longest
        draw matched_pairs keypoints1 keypoints2 orient_agreement scale_agreement
        largest_set :
  RANSACFilter draw matched_pairs keypoints1 keypoints2
               orient_agreement scale_agreement = Ok largest_set ->
  exists sets,
    mapM (consensus_set matched_pairs keypoints1 keypoints2
                        orient_agreement scale_agreement)
         (pick matched_pairs draw) = Ok sets /\
    first_longest sets largest_set.
Proof.
  unfold RANSACFilter, random_sample. intros H.
  destruct (length matched_pairs <? 10); cbn [bind] in H; [discriminate|].
  apply filter_loop_fold in H. destruct H as (sets & M & ->).
  exists sets. split; [exact M|]. apply fold_keep_larger_first_longest.
Qed.

Lemma RANSACFilter_first_longest_witness :
  exists sets,
    mapM (consensus_set example_matches example_keypoints1 example_keypoints2 30 0.5)
         (pick example_matches example_draw) = Ok sets /\
    first_longest sets (firstn 9 example_matches).
Proof.
  apply (RANSACFilter_first_longest example_draw example_matches
           example_keypoints1 example_keypoints2 30 0.5).
  reflexivity.
Defined.

(** X5: a match that addresses a row outside a keypoint array is not
    skipped: with at least 10 matches and a non-empty sample, one such match
    anywhere in the list makes the call raise [IndexError]. *)
Theorem RANSACFilter_dangling_match
        draw matched_pairs keypoints1 keypoints2 orient_agreement scale_agreement m :
  10 <= length matched_pairs ->
  pick matched_pairs draw <> [] ->
  In m matched_pairs ->
  is_ok (match_rows keypoints1 keypoints2 m) = false ->
  RANSACFilter draw matched_pairs keypoints1 keypoints2
               orient_agreement scale_agreement = Raise IndexError.
Proof.
  intros Len Pick Hin Bad. unfold RANSACFilter.
  rewrite random_sample_enough by assumption. cbn [bind].
  destruct (pick matched_pairs draw) as [|sel sels]; [congruence|].
  cbn [filter_loop].
  rewrite (consensus_set_dangling matched_pairs keypoints1 keypoints2
             orient_agreement scale_agreement sel m Hin Bad).
  reflexivity.
Qed.

Lemma RANSACFilter_dangling_match_witness :
  RANSACFilter example_draw (example_matches ++ [(12, 0)%Z])
               example_keypoints1 example_keypoints2 30 0.5 = Raise IndexError.
Proof.
  apply (RANSACFilter_dangling_match example_draw (example_matches ++ [(12, 0)%Z])
           example_keypoints1 example_keypoints2 30 0.5 (12, 0)%Z).
  - simpl. lia.
  - discriminate.
  - apply in_or_app. right. left. reflexivity.
  - reflexivity.
Defined.

(** X6: an agreement threshold that is negative or NaN rejects every match,
    the sampled one included: when the rows of all matches exist and there
    are at least 10 matches, the filter returns the empty list. *)
Theorem RANSACFilter_rejecting_threshold
        draw matched_pairs keypoints1 keypoints2 orient_agreement scale_agreement :
  10 <= length matched_pairs ->
  rows_exist keypoints1 keypoints2 matched_pairs = true ->
  (0 <=? orient_agreement)%float = false \/ (0 <=? scale_agreement)%float = false ->
  RANSACFilter draw matched_pairs keypoints1 keypoints2
               orient_agreement scale_agreement = Ok [].
Proof.
  intros Len R T. unfold RANSACFilter.
  rewrite random_sample_enough by assumption. cbn [bind].
  assert (P : forall sel, In sel (pick matched_pairs draw) -> In sel matched_pairs)
    by (intros sel; apply pick_In).
  induction (pick matched_pairs draw) as [|sel sels IH]; cbn [filter_loop].
  - reflexivity.
  - rewrite (consensus_set_rejecting matched_pairs keypoints1 keypoints2
               orient_agreement scale_agreement sel R
               (P sel (or_introl eq_refl)) T).
    cbn [bind]. apply IH. intros; apply P; right; assumption.
Qed.

Lemma RANSACFilter_rejecting_threshold_witness :
  RANSACFilter example_draw example_matches example_keypoints1 example_keypoints2
               30 (-0.5) = Ok [] /\
  RANSACFilter example_draw example_matches example_keypoints1 example_keypoints2
               nan 0.5 = Ok [].
Proof.
  split.
  - apply (RANSACFilter_rejecting_threshold example_draw example_matches
             example_keypoints1 example_keypoints2 30 (-0.5)).
    + simpl. lia.
    + reflexivity.
    + right. reflexivity.
  - apply (RANSACFilter_rejecting_threshold example_draw example_matches
             example_keypoints1 example_keypoints2 nan 0.5).
    + simpl. lia.
    + reflexivity.
    + left. reflexivity.
Defined.

(* ================================================================== *)
(** * Further properties of RANSACHomography *)

Lemma filterM_In_true {A} (f : A -> result bool) xs ys x :
  filterM f xs = Ok ys -> In x ys -> f x = Ok true.
Proof.
  revert ys. induction xs as [|a xs IH]; cbn [filterM]; intros ys H Hx.
  - inversion H; subst. contradiction.
  - destruct (f a) as [b|e] eqn:Fa; cbn [bind] in H; [|discriminate].
    destruct (filterM f xs) as [zs|e]; cbn [bind] in H; [|discriminate].
    inversion H; subst; clear H. destruct b.
    + destruct Hx as [<-|Hx]; [assumption|eauto].
    + eauto.
Qed.

Lemma filterM_all {A} (f : A -> result bool) xs :
  (forall x, In x xs -> f x = Ok true) -> filterM f xs = Ok xs.
Proof.
  induction xs as [|a xs IH]; intros H; cbn [filterM]; [reflexivity|].
  rewrite (H a) by (left; reflexivity). cbn [bind].
  rewrite IH by (intros; apply H; right; assumption). reflexivity.
Qed.

Lemma filterM_none {A} (f : A -> result bool) xs :
  (forall x, In x xs -> f x = Ok false) -> filterM f xs = Ok [].
Proof.
  induction xs as [|a xs IH]; intros H; cbn [filterM]; [reflexivity|].
  rewrite (H a) by (left; reflexivity). cbn [bind].
  rewrite IH by (intros; apply H; right; assumption). reflexivity.
Qed.

Lemma py_index_nth_error {A} (l : list A) j x :
  nth_error l j = Some x -> py_index l j = Ok x.
Proof. unfold py_index. intros ->. reflexivity. Qed.

(** X7: with correspondence arrays of unequal length the estimator fails
    its shape assertion; with equal lengths below 4 and at least one
    iteration it raises the sampler's [ValueError], before the solver is
    ever called. *)
Theorem RANSACHomography_too_few_points
        findHomography draws xy_src xy_ref num_iter tol :
  (length xy_src <> length xy_ref ->
   RANSACHomography findHomography draws xy_src xy_ref num_iter tol
   = Raise AssertionError) /\
  (length xy_src = length xy_ref -> length xy_src < 4 -> (1 <= num_iter)%Z ->
   RANSACHomography findHomography draws xy_src xy_ref num_iter tol
   = Raise ValueError).
Proof.
  unfold RANSACHomography. split.
  - intros Ne. apply Nat.eqb_neq in Ne. rewrite Ne. reflexivity.
  - intros Len Few Iter. rewrite Len, Nat.eqb_refl. cbn [assert_ bind].
    destruct (Z.to_nat num_iter) as [|n] eqn:E; [lia|].
    cbn [seq homography_loop]. unfold iteration.
    rewrite random_sample_short by (rewrite length_seq; lia).
    reflexivity.
Qed.

Lemma RANSACHomography_too_few_points_witness :
  RANSACHomography translation_solver first_four (firstn 3 example_src) example_ref 5 0.5
  = Raise AssertionError /\
  RANSACHomography translation_solver first_four
                   (firstn 3 example_src) (firstn 3 example_ref) 5 0.5
  = Raise ValueError.
Proof.
  split.
  - refine (proj1 (RANSACHomography_too_few_points translation_solver first_four
                     (firstn 3 example_src) example_ref 5 0.5) _).
    simpl. lia.
  - refine (proj2 (RANSACHomography_too_few_points translation_solver first_four
                     (firstn 3 example_src) (firstn 3 example_ref) 5 0.5) _ _ _).
    + reflexivity.
    + simpl. lia.
    + lia.
Defined.

(** X8: with zero or a negative number of iterations nothing is sampled:
    the solver is called once, on two empty arrays, and its outcome is the
    outcome of the call. *)
Theorem RANSACHomography_no_iteration
        findHomography draws xy_src xy_ref num_iter tol :
  length xy_src = length xy_ref -> (num_iter <= 0)%Z ->
  RANSACHomography findHomography draws xy_src xy_ref num_iter tol
  = match findHomography [] [] with
    | Ok (Some m) => Ok m
    | Ok None => Raise AssertionError
    | Raise e => Raise e
    end.
Proof.
  intros Len Iter. unfold RANSACHomography.
  rewrite Len, Nat.eqb_refl. cbn [assert_ bind].
  replace (Z.to_nat num_iter) with 0 by lia.
  cbn [seq homography_loop bind]. unfold refit. cbn [take_rows mapM bind].
  destruct (findHomography [] []) as [[m|]|e]; reflexivity.
Qed.

Lemma RANSACHomography_no_iteration_witness :
  RANSACHomography translation_solver first_four example_src example_ref 0 0.5
  = match translation_solver [] [] with
    | Ok (Some m) => Ok m
    | Ok None => Raise AssertionError
    | Raise e => Raise e
    end.
Proof.
  apply (RANSACHomography_no_iteration translation_solver first_four
           example_src example_ref 0 0.5).
  - reflexivity.
  - lia.
Defined.

Section EstimatorMore.
Variable findHomography : list point -> list point -> result (option matrix).
Variables (draws : nat -> list nat) (xy_src xy_ref : list point).

Lemma iteration_subseq draw tol current :
  iteration findHomography draw xy_src xy_ref tol = Ok current ->
  subseq current (seq 0 (length xy_src)).
Proof.
  unfold iteration. intros H.
  destruct (random_sample _ _ _) as [sel|]; cbn [bind] in H; [|discriminate].
  destruct (take_rows xy_src sel) as [src4|]; cbn [bind] in H; [|discriminate].
  destruct (take_rows xy_ref sel) as [ref4|]; cbn [bind] in H; [|discriminate].
  destruct (findHomography src4 ref4) as [h|]; cbn [bind] in H; [|discriminate].
  destruct (KeypointProjection xy_src h) as [proj|]; cbn [bind] in H; [|discriminate].
  unfold inlier_set in H. eapply filterM_subseq; eauto.
Qed.

Lemma homography_loop_subseq tol iterations largest best :
  homography_loop findHomography draws xy_src xy_ref tol iterations largest = Ok best ->
  subseq largest (seq 0 (length xy_src)) ->
  subseq best (seq 0 (length xy_src)).
Proof.
  revert largest. induction iterations as [|i rest IH]; cbn [homography_loop];
    intros largest H L.
  - inversion H; subst. exact L.
  - destruct (iteration findHomography (draws i) xy_src xy_ref tol) as [c|] eqn:E;
      cbn [bind] in H; [|discriminate].
    apply (IH _ H).
    destruct (keep_larger_cases largest c) as [-> | ->]; [exact L|].
    eapply iteration_subseq; eauto.
Qed.

(** Looser tolerance: every inlier stays an inlier. *)
Lemma iteration_contained draw tol1 tol2 :
  (tol1 <=? tol2)%float = true ->
  contained (iteration findHomography draw xy_src xy_ref tol1)
            (iteration findHomography draw xy_src xy_ref tol2).
Proof.
  intros T. unfold iteration.
  destruct (random_sample _ _ _) as [sel|]; cbn [bind]; [|reflexivity].
  destruct (take_rows xy_src sel) as [src4|]; cbn [bind]; [|reflexivity].
  destruct (take_rows xy_ref sel) as [ref4|]; cbn [bind]; [|reflexivity].
  destruct (findHomography src4 ref4) as [h|]; cbn [bind]; [|reflexivity].
  destruct (KeypointProjection xy_src h) as [proj|]; cbn [bind]; [|reflexivity].
  unfold inlier_set. apply filterM_contained. intros j.
  destruct (py_index xy_ref j); cbn [bind]; [|reflexivity].
  destruct (py_index proj j); cbn [bind]; [|reflexivity].
  intros H. eapply leb_trans; eauto.
Qed.

Lemma homography_loop_no_shorter tol1 tol2 iterations largest1 largest2 :
  (tol1 <=? tol2)%float = true ->
  length largest1 <= length largest2 ->
  no_shorter
    (homography_loop findHomography draws xy_src xy_ref tol1 iterations largest1)
    (homography_loop findHomography draws xy_src xy_ref tol2 iterations largest2).
Proof.
  intros T. revert largest1 largest2.
  induction iterations as [|i rest IH]; intros largest1 largest2 L;
    cbn [homography_loop].
  - exact L.
  - pose proof (iteration_contained (draws i) tol1 tol2 T) as C. unfold contained in C.
    destruct (iteration findHomography (draws i) xy_src xy_ref tol1) as [c1|e1],
             (iteration findHomography (draws i) xy_src xy_ref tol2) as [c2|e2];
      try contradiction; cbn [bind]; [|exact C].
    apply IH. rewrite !keep_larger_length. lia.
Qed.

(** A tolerance that is negative or NaN admits no inlier. *)
Lemma iteration_rejecting draw tol current :
  (0 <=? tol)%float = false ->
  iteration findHomography draw xy_src xy_ref tol = Ok current ->
  current = [].
Proof.
  intros T H. destruct current as [|j rest]; [reflexivity|]. exfalso.
  unfold iteration in H.
  destruct (random_sample _ _ _) as [sel|]; cbn [bind] in H; [|discriminate].
  destruct (take_rows xy_src sel) as [src4|]; cbn [bind] in H; [|discriminate].
  destruct (take_rows xy_ref sel) as [ref4|]; cbn [bind] in H; [|discriminate].
  destruct (findHomography src4 ref4) as [h|]; cbn [bind] in H; [|discriminate].
  destruct (KeypointProjection xy_src h) as [proj|]; cbn [bind] in H; [|discriminate].
  unfold inlier_set in H.
  pose proof (filterM_In_true _ _ _ j H (or_introl eq_refl)) as F. cbn beta in F.
  destruct (py_index xy_ref j); cbn [bind] in F; [|discriminate].
  destruct (py_index proj j); cbn [bind] in F; [|discriminate].
  unfold np_linalg_norm in F. rewrite (sqrt_not_within _ _ T) in F. discriminate.
Qed.

Lemma homography_loop_rejecting tol iterations best :
  (0 <=? tol)%float = false ->
  homography_loop findHomography draws xy_src xy_ref tol iterations [] = Ok best ->
  best = [].
Proof.
  intros T. induction iterations as [|i rest IH]; cbn [homography_loop]; intros H.
  - inversion H; reflexivity.
  - destruct (iteration findHomography (draws i) xy_src xy_ref tol) as [c|] eqn:E;
      cbn [bind] in H; [|discriminate].
    rewrite (iteration_rejecting (draws i) tol c T E) in H. apply IH. exact H.
Qed.
End EstimatorMore.

Lemma seq_sorted s n : StronglySorted lt (seq s n).
Proof.
  revert s. induction n as [|n IH]; intros s; cbn [seq]; constructor; [apply IH|].
  rewrite Forall_forall. intros x Hx. apply in_seq in Hx. lia.
Qed.

(** X9: the best inlier set the loop hands to the final fit is a strictly
    ascending list of row indices of the correspondence arrays: no index is
    out of range and none is repeated. *)
Theorem RANSACHomography_inlier_indices
        findHomography draws xy_src xy_ref tol iterations largest_set :
  homography_loop findHomography draws xy_src xy_ref tol iterations [] = Ok largest_set ->
  subseq largest_set (seq 0 (length xy_src)) /\
  StronglySorted lt largest_set /\
  NoDup largest_set /\
  forall j, In j largest_set -> j < length xy_src.
Proof.
  intros H.
  assert (S : subseq largest_set (seq 0 (length xy_src))).
  { eapply homography_loop_subseq; eauto. apply subseq_nil_l. }
  split; [exact S|]. split; [|split].
  - eapply subseq_sorted; [exact S|apply seq_sorted].
  - eapply subseq_NoDup; [exact S|apply seq_NoDup].
  - intros j Hj. pose proof (subseq_In _ _ j S Hj) as I. apply in_seq in I. lia.
Qed.

Lemma RANSACHomography_inlier_indices_witness :
  subseq [0; 1; 2] (seq 0 (length example_src)) /\
  StronglySorted lt [0; 1; 2] /\
  NoDup [0; 1; 2] /\
  forall j, In j [0; 1; 2] -> j < length example_src.
Proof.
  apply (RANSACHomography_inlier_indices translation_solver first_four
           example_src example_ref (0.5 * 1)%float (seq 0 2)).
  reflexivity.
Defined.

(** X10: a source point that the candidate homography sends to infinity
    (homogeneous coordinate [w' = 0]) raises nothing and is never counted as
    an inlier, whatever the finite tolerance. *)
Theorem inlier_set_excludes_infinite
        (h : matrix) xy_src xy_ref projected_points tol current j p :
  KeypointProjection xy_src (Some h) = Ok projected_points ->
  inlier_set xy_src xy_ref projected_points tol = Ok current ->
  nth_error xy_src j = Some p ->
  is_zero (snd (project_homogeneous h p)) = true ->
  is_finite tol = true ->
  ~ In j current.
Proof.
  intros P I Hp Z T Hin. cbn [KeypointProjection] in P. inversion P; subst; clear P.
  unfold inlier_set in I.
  pose proof (filterM_In_true _ _ _ j I Hin) as F. cbn beta in F.
  destruct (py_index xy_ref j) as [r|]; cbn [bind] in F; [|discriminate].
  unfold py_index in F. rewrite nth_error_map, Hp in F. cbn [option_map bind] in F.
  destruct (project_homogeneous h p) as [[x' y'] w']. cbn [fst snd] in *.
  rewrite norm_not_finite in F; [discriminate| |exact T].
  cbn [fst snd]. rewrite (div_zero_not_finite x' w' Z). reflexivity.
Qed.

Lemma inlier_set_excludes_infinite_witness :
  inlier_set example_src example_ref
             (map (fun p => let '(x', y', w') := project_homogeneous flattening p in
                            (x' / w', y' / w')%float) example_src) 1024
  = Ok [] /\ ~ In 1 (@nil nat).
Proof.
  split; [reflexivity|].
  apply (inlier_set_excludes_infinite flattening example_src example_ref
           (map (fun p => let '(x', y', w') := project_homogeneous flattening p in
                          (x' / w', y' / w')%float) example_src)
           1024 [] 1 (1, 0)%float); reflexivity.
Defined.

(** X11: when the candidate homography is the identity and the reference
    points are the source points themselves (finite coordinates), every
    index is an inlier for every tolerance that is at least zero. *)
Theorem inlier_set_identity (xy_src : list point) tol :
  forallb finite_point xy_src = true ->
  (0 <=? tol)%float = true ->
  exists projected_points,
    KeypointProjection xy_src (Some identity3) = Ok projected_points /\
    inlier_set xy_src xy_src projected_points tol = Ok (seq 0 (length xy_src)).
Proof.
  intros F T. eexists. split; [reflexivity|].
  unfold inlier_set. apply filterM_all. intros j Hj. apply in_seq in Hj.
  destruct (nth_error xy_src j) as [p|] eqn:Hp;
    [|apply nth_error_None in Hp; lia].
  rewrite (py_index_nth_error _ _ _ Hp). cbn [bind].
  unfold py_index. rewrite nth_error_map, Hp. cbn [option_map bind].
  rewrite forallb_forall in F. pose proof (F p (nth_error_In _ _ Hp)) as Fp.
  rewrite (project_identity p Fp).
  unfold finite_point in Fp. apply andb_true_iff in Fp. destruct Fp as [Fx Fy].
  rewrite norm_zero.
  - rewrite T. reflexivity.
  - cbn [point_sub fst snd]. apply sub_plus_zero. assumption.
  - cbn [point_sub fst snd]. apply sub_plus_zero. assumption.
Qed.

Lemma inlier_set_identity_witness :
  exists projected_points,
    KeypointProjection example_src (Some identity3) = Ok projected_points /\
    inlier_set example_src example_src projected_points 0
    = Ok (seq 0 (length example_src)).
Proof.
  apply (inlier_set_identity example_src 0); reflexivity.
Defined.

Lemma homography_loop_all_ok findHomography draws xy_src xy_ref tol iterations largest :
  (forall i, In i iterations ->
     is_ok (iteration findHomography (draws i) xy_src xy_ref tol) = true) ->
  is_ok (homography_loop findHomography draws xy_src xy_ref tol iterations largest) = true.
Proof.
  revert largest. induction iterations as [|i rest IH]; intros largest H;
    cbn [homography_loop].
  - reflexivity.
  - pose proof (H i (or_introl eq_refl)) as Hi.
    destruct (iteration findHomography (draws i) xy_src xy_ref tol); [|discriminate].
    cbn [bind]. apply IH. intros; apply H; right; assumption.
Qed.

(** X12: among inlier sets of equal length the estimator keeps the one
    found first: the matrix of a successful call is the solver's fit to the
    first of the longest inlier sets of the iterations, in their order. *)
Theorem RANSACHomography_first_longest
        findHomography draws xy_src xy_ref num_iter tol h :
  RANSACHomography findHomography draws xy_src xy_ref num_iter tol = Ok h ->
  exists sets largest_set,
    mapM (fun i => iteration findHomography (draws i) xy_src xy_ref (tol * 1)%float)
         (seq 0 (Z.to_nat num_iter)) = Ok sets /\
    first_longest sets largest_set /\
    findHomography (map (nth_point xy_src) largest_set)
                   (map (nth_point xy_ref) largest_set) = Ok (Some h).
Proof.
  unfold RANSACHomography. intros H.
  destruct (Nat.eqb_spec (length xy_src) (length xy_ref)) as [Len|]; [|discriminate].
  cbn [assert_ bind] in H.
  destruct (homography_loop _ _ _ _ _ _ _) as [best|] eqn:Loop; [|discriminate].
  cbn [bind] in H.
  assert (R : forall j, In j best -> j < length xy_src).
  { intros j. eapply homography_loop_range; eauto. }
  apply homography_loop_fold in Loop. destruct Loop as (sets & M & E).
  exists sets, best. split; [exact M|].
  split; [rewrite E; apply fold_keep_larger_first_longest|].
  unfold refit in H.
  rewrite take_rows_in_range in H by assumption. cbn [bind] in H.
  rewrite take_rows_in_range in H by (rewrite <- Len; assumption). cbn [bind] in H.
  destruct (findHomography _ _) as [[m|]|e]; cbn [bind] in H; try discriminate.
  inversion H; subst. reflexivity.
Qed.

Lemma RANSACHomography_first_longest_witness :
  exists sets largest_set,
    mapM (fun i => iteration translation_solver (rotating_draws i)
                             shifted_src shifted_ref (0.5 * 1)%float)
         (seq 0 (Z.to_nat 3)) = Ok sets /\
    first_longest sets largest_set /\
    translation_solver (map (nth_point shifted_src) largest_set)
                       (map (nth_point shifted_ref) largest_set)
    = Ok (Some (translation 2 3)).
Proof.
  apply (RANSACHomography_first_longest translation_solver rotating_draws
           shifted_src shifted_ref 3 0.5 (translation 2 3)).
  reflexivity.
Defined.

(** X13: a tolerance that is negative or NaN admits no inlier: when every
    iteration runs through, the best inlier set is empty and the outcome of
    the call is the solver's outcome on two empty arrays. *)
Theorem RANSACHomography_rejecting_tolerance
        findHomography draws xy_src xy_ref num_iter tol :
  length xy_src = length xy_ref ->
  (0 <=? tol)%float = false ->
  (forall i, i < Z.to_nat num_iter ->
     is_ok (iteration findHomography (draws i) xy_src xy_ref tol) = true) ->
  RANSACHomography findHomography draws xy_src xy_ref num_iter tol
  = match findHomography [] [] with
    | Ok (Some m) => Ok m
    | Ok None => Raise AssertionError
    | Raise e => Raise e
    end.
Proof.
  intros Len T Run. unfold RANSACHomography.
  rewrite Len, Nat.eqb_refl. cbn [assert_ bind]. rewrite mul_one_r.
  assert (O : is_ok (homography_loop findHomography draws xy_src xy_ref tol
                       (seq 0 (Z.to_nat num_iter)) []) = true).
  { apply homography_loop_all_ok. intros i Hi. apply Run. apply in_seq in Hi. lia. }
  destruct (homography_loop _ _ _ _ _ _ _) as [best|] eqn:Loop; [|discriminate].
  rewrite (homography_loop_rejecting findHomography draws xy_src xy_ref tol _ best T Loop).
  cbn [bind]. unfold refit. cbn [take_rows mapM bind].
  destruct (findHomography [] []) as [[m|]|e]; reflexivity.
Qed.

Lemma RANSACHomography_rejecting_tolerance_witness :
  RANSACHomography translation_solver first_four example_src example_ref 2 (-1)
  = match translation_solver [] [] with
    | Ok (Some m) => Ok m
    | Ok None => Raise AssertionError
    | Raise e => Raise e
    end.
Proof.
  apply (RANSACHomography_rejecting_tolerance translation_solver first_four
           example_src example_ref 2 (-1)).
  - reflexivity.
  - reflexivity.
  - intros i Hi. destruct i as [|[|i]]; [reflexivity|reflexivity|simpl in Hi; lia].
Defined.

(** X14: on the same draws and with the same solver, a looser tolerance
    never shrinks the best inlier set: both loops fail alike, or the set
    found with the looser tolerance is at least as long. *)
Theorem RANSACHomography_tolerance_monotone
        findHomography draws xy_src xy_ref num_iter tol1 tol2 :
  (tol1 <=? tol2)%float = true ->
  no_shorter
    (homography_loop findHomography draws xy_src xy_ref (tol1 * 1)%float
                     (seq 0 (Z.to_nat num_iter)) [])
    (homography_loop findHomography draws xy_src xy_ref (tol2 * 1)%float
                     (seq 0 (Z.to_nat num_iter)) []).
Proof.
  intros T. rewrite !mul_one_r.
  apply homography_loop_no_shorter; [exact T|lia].
Qed.

Lemma RANSACHomography_tolerance_monotone_witness :
  no_shorter
    (homography_loop translation_solver first_four example_src example_ref (0.5 * 1)%float
                     (seq 0 (Z.to_nat 2)) [])
    (homography_loop translation_solver first_four example_src example_ref (5 * 1)%float
                     (seq 0 (Z.to_nat 2)) []).
Proof.
  apply (RANSACHomography_tolerance_monotone translation_solver first_four
           example_src example_ref 2 0.5 5).
  reflexivity.
Defined.

(* ================================================================== *)
(** * Further properties of FindBestMatches *)

Lemma sort_keyed_perm_acc {A} (l acc : list (float * A)) :
  Permutation (fold_left (fun acc x => insert_by_key x acc) l acc) (acc ++ l).
Proof.
  revert acc. induction l as [|x l IH]; intros acc; cbn [fold_left].
  - rewrite app_nil_r. reflexivity.
  - rewrite IH, insert_by_key_perm. apply Permutation_middle.
Qed.

Lemma sort_keyed_perm {A} (l : list (float * A)) : Permutation (sort_keyed l) l.
Proof. apply (sort_keyed_perm_acc l []). Qed.

Lemma mapM_length {A B} (f : A -> result B) l ys :
  mapM f l = Ok ys -> length ys = length l.
Proof.
  revert ys. induction l as [|x l IH]; cbn [mapM]; intros ys H.
  - inversion H; reflexivity.
  - destruct (f x); cbn [bind] in H; [|discriminate].
    destruct (mapM f l) as [zs|]; cbn [bind] in H; [|discriminate].
    inversion H; subst. cbn [length]. f_equal. auto.
Qed.

Lemma sorted_In {A} (key : A -> result float) l s x :
  sorted key l = Ok s -> In x s -> In x l.
Proof.
  unfold sorted. intros H Hx.
  destruct (mapM key l) as [keys|] eqn:K; cbn [bind] in H; [|discriminate].
  inversion H; subst; clear H.
  apply in_map_iff in Hx. destruct Hx as ([k y] & <- & Hy). cbn [snd].
  apply (Permutation_in _ (sort_keyed_perm _)) in Hy.
  eapply in_combine_r; eauto.
Qed.

(** A row adds nothing, or one pair of the row with a position of image 2. *)
Lemma match_row_shape acos descriptors2 threshold i d1 new :
  match_row acos descriptors2 threshold i d1 = Ok new ->
  new = [] \/ exists j, j < length descriptors2 /\ new = [(Z.of_nat i, Z.of_nat j)].
Proof.
  unfold match_row. intros H.
  destruct (sorted _ _) as [s|] eqn:S; cbn [bind] in H; [|discriminate].
  destruct (py_index s 0) as [best|] eqn:B; cbn [bind] in H; [|discriminate].
  destruct (angular_distance acos d1 (snd best)); cbn [bind] in H; [|discriminate].
  destruct (py_index s 1) as [second|]; cbn [bind] in H; [|discriminate].
  destruct (angular_distance acos d1 (snd second)); cbn [bind] in H; [|discriminate].
  destruct (float_div _ _) as [ratio|]; cbn [bind] in H; [|discriminate].
  inversion H; subst; clear H.
  destruct (ratio <=? threshold)%float; [right|left; reflexivity].
  exists (fst best). split; [|reflexivity].
  unfold py_index in B. destruct (nth_error s 0) as [b|] eqn:N; [|discriminate].
  inversion B; subst. apply nth_error_In in N.
  pose proof (sorted_In _ _ _ _ S N) as I. destruct best as [j d2].
  apply enumerate_In in I. cbn [fst]. apply nth_error_Some. congruence.
Qed.

Lemma match_loop_indices acos descriptors2 threshold l s res :
  match_loop acos descriptors2 threshold (combine (seq s (length l)) l) = Ok res ->
  StronglySorted Z.lt (map fst res) /\
  length res <= length l /\
  forall m, In m res ->
    (Z.of_nat s <= fst m < Z.of_nat (s + length l))%Z /\
    (0 <= snd m < Z.of_nat (length descriptors2))%Z.
Proof.
  revert s res. induction l as [|d1 l IH]; intros s res;
    cbn [length seq combine match_loop]; intros H.
  - inversion H; subst. split; [constructor|]. split; [cbn; lia|]. intros ? [].
  - destruct (match_row acos descriptors2 threshold s d1) as [new|] eqn:Row;
      cbn [bind] in H; [|discriminate].
    destruct (match_loop _ _ _ _) as [later|] eqn:Loop; cbn [bind] in H; [|discriminate].
    inversion H; subst; clear H.
    destruct (IH (S s) later Loop) as (Sorted & Len & Range).
    destruct (match_row_shape _ _ _ _ _ _ Row) as [->|(j & Hj & ->)]; cbn [app].
    + split; [assumption|]. split; [lia|].
      intros m Hm. destruct (Range m Hm). split; lia.
    + cbn [map fst length]. split; [|split; [lia|]].
      * constructor; [assumption|].
        rewrite Forall_forall. intros z Hz. apply in_map_iff in Hz.
        destruct Hz as (m & <- & Hm). destruct (Range m Hm). lia.
      * intros m [<-|Hm]; cbn [fst snd].
        -- split; lia.
        -- destruct (Range m Hm). split; lia.
Qed.

(** X15: whenever the matcher returns, every pair [(i, j)] it returns
    indexes a row of each descriptor array, the pairs are in strictly
    ascending order of [i], and there are at most as many as descriptors of
    image 1. *)
Theorem FindBestMatches_indices acos descriptors1 descriptors2 threshold matched_pairs :
  FindBestMatches acos descriptors1 descriptors2 threshold = Ok matched_pairs ->
  StronglySorted Z.lt (map fst matched_pairs) /\
  length matched_pairs <= length descriptors1 /\
  forall m, In m matched_pairs ->
    (0 <= fst m < Z.of_nat (length descriptors1))%Z /\
    (0 <= snd m < Z.of_nat (length descriptors2))%Z.
Proof.
  unfold FindBestMatches, enumerate. intros H.
  destruct (match_loop_indices _ _ _ _ _ _ H) as (S & L & R).
  split; [exact S|]. split; [exact L|].
  intros m Hm. destruct (R m Hm). split; [cbn in *; lia|assumption].
Qed.

Lemma FindBestMatches_indices_witness :
  StronglySorted Z.lt (map fst [(0, 0); (2, 1)]%Z) /\
  length [(0, 0); (2, 1)]%Z <= length example_descriptors1 /\
  forall m, In m [(0, 0); (2, 1)]%Z ->
    (0 <= fst m < Z.of_nat (length example_descriptors1))%Z /\
    (0 <= snd m < Z.of_nat (length example_descriptors2))%Z.
Proof.
  apply (FindBestMatches_indices acos_table example_descriptors1
           example_descriptors2 0.75).
  reflexivity.
Defined.

Lemma contained_app {A} (r1 r2 s1 s2 : result (list A)) :
  contained r1 r2 -> contained s1 s2 ->
  contained (x <- r1 ;; y <- s1 ;; Ok (x ++ y)) (x <- r2 ;; y <- s2 ;; Ok (x ++ y)).
Proof.
  unfold contained.
  destruct r1 as [a1|e1], r2 as [a2|e2]; try contradiction; cbn [bind]; [|auto].
  destruct s1 as [b1|f1], s2 as [b2|f2]; try contradiction; cbn [bind]; [|auto].
  intros [L1 I1] [L2 I2]. rewrite !length_app. split; [lia|].
  intros x Hx. apply in_app_iff in Hx. apply in_app_iff. destruct Hx; auto.
Qed.

Lemma match_row_contained acos descriptors2 thr1 thr2 i d1 :
  (thr1 <=? thr2)%float = true ->
  contained (match_row acos descriptors2 thr1 i d1)
            (match_row acos descriptors2 thr2 i d1).
Proof.
  intros T. unfold match_row.
  destruct (sorted _ _) as [s|]; cbn [bind]; [|reflexivity].
  destruct (py_index s 0) as [best|]; cbn [bind]; [|reflexivity].
  destruct (angular_distance acos d1 (snd best)); cbn [bind]; [|reflexivity].
  destruct (py_index s 1) as [second|]; cbn [bind]; [|reflexivity].
  destruct (angular_distance acos d1 (snd second)); cbn [bind]; [|reflexivity].
  destruct (float_div _ _) as [ratio|]; cbn [bind contained]; [|reflexivity].
  destruct (ratio <=? thr1)%float eqn:R1.
  - rewrite (leb_trans _ _ _ R1 T). split; [lia|auto].
  - split; [cbn; lia|intros ? []].
Qed.

(** X16: raising the threshold of the ratio test only adds matches: for
    [threshold1 <= threshold2] both calls fail with the same error, or every
    pair returned for [threshold1] is returned for [threshold2]. *)
Theorem FindBestMatches_threshold_monotone
        acos descriptors1 descriptors2 thr1 thr2 :
  (thr1 <=? thr2)%float = true ->
  contained (FindBestMatches acos descriptors1 descriptors2 thr1)
            (FindBestMatches acos descriptors1 descriptors2 thr2).
Proof.
  intros T. unfold FindBestMatches.
  induction (enumerate descriptors1) as [|[i d1] rows IH]; cbn [match_loop].
  - split; [lia|auto].
  - apply contained_app; [apply match_row_contained; exact T|exact IH].
Qed.

Lemma FindBestMatches_threshold_monotone_witness :
  FindBestMatches acos_table example_descriptors1 example_descriptors2 0.75
  = Ok [(0, 0); (2, 1)]%Z /\
  FindBestMatches acos_table example_descriptors1 example_descriptors2 1
  = Ok [(0, 0); (1, 0); (2, 1)]%Z /\
  contained (FindBestMatches acos_table example_descriptors1 example_descriptors2 0.75)
            (FindBestMatches acos_table example_descriptors1 example_descriptors2 1).
Proof.
  split; [reflexivity|]. split; [reflexivity|].
  apply (FindBestMatches_threshold_monotone acos_table
           example_descriptors1 example_descriptors2 0.75 1).
  reflexivity.
Defined.

Lemma leb_zero_eqb a :
  (a <=? 0)%float = true -> (a <? 0)%float = false -> (a =? 0)%float = true.
Proof.
  rewrite leb_rank. intros (Na & N0 & [L|E]) Lt.
  - assert ((a <? 0)%float = true) by (apply ltb_rank; auto). congruence.
  - apply eqb_rank. auto.
Qed.

(** X17: two descriptors of image 2 at angular distance zero from the first
    descriptor of image 1 (two copies of it, say) make the ratio test divide
    by zero: the call raises [ZeroDivisionError]. *)
Theorem FindBestMatches_zero_division
        acos d1 descriptors1 descriptors2 threshold j k :
  forallb (defined_distance acos d1) descriptors2 = true ->
  no_negative_distance acos d1 descriptors2 = true ->
  j < length descriptors2 -> k < length descriptors2 -> j <> k ->
  (dist_at (distances acos d1 descriptors2) j =? 0)%float = true ->
  (dist_at (distances acos d1 descriptors2) k =? 0)%float = true ->
  FindBestMatches acos (d1 :: descriptors1) descriptors2 threshold
  = Raise ZeroDivisionError.
Proof.
  intros Def Pos Lj Lk Ne Zj Zk.
  assert (Len : 2 <= length descriptors2) by lia.
  destruct (match_row_neighbours acos descriptors2 threshold 0 d1 Len Def)
    as (j0 & j1 & Near & Second & Row).
  cbn zeta in *.
  pose proof (distances_length acos d1 descriptors2) as DLen.
  set (ds := distances acos d1 descriptors2) in *.
  destruct Second as (L1 & N1 & Before1).
  assert (Z1 : (dist_at ds j1 =? 0)%float = true).
  { assert (P : exists p, p < length ds /\ p <> j0 /\ (dist_at ds p =? 0)%float = true).
    { destruct (Nat.eq_dec j j0) as [->|Nj].
      - exists k. repeat split; [lia|congruence|assumption].
      - exists j. repeat split; [lia|assumption|assumption]. }
    destruct P as (p & Lp & Np & Zp).
    destruct (Nat.eq_dec p j1) as [->|Np1]; [exact Zp|].
    apply leb_zero_eqb.
    - eapply leb_trans; [|apply eqb_leb; exact Zp].
      apply precedes_leb.
      + apply distances_numbers; [assumption|lia].
      + apply distances_numbers; [assumption|lia].
      + apply Before1; assumption.
    - unfold no_negative_distance in Pos. rewrite forallb_forall in Pos.
      fold ds in Pos. apply negb_true_iff. apply Pos. apply nth_In. exact L1. }
  unfold FindBestMatches, enumerate. cbn [length seq combine match_loop].
  rewrite Row. unfold float_div. rewrite Z1. reflexivity.
Qed.

Lemma FindBestMatches_zero_division_witness :
  FindBestMatches acos_table ([1; 0; 0; 0]%float :: example_descriptors1)
                  [[1; 0; 0; 0]; [0; 1; 0; 0]; [1; 0; 0; 0]]%float 0.75
  = Raise ZeroDivisionError.
Proof.
  apply (FindBestMatches_zero_division acos_table [1; 0; 0; 0]%float example_descriptors1
           [[1; 0; 0; 0]; [0; 1; 0; 0]; [1; 0; 0; 0]]%float 0.75 0 2).
  - reflexivity.
  - reflexivity.
  - simpl. lia.
  - simpl. lia.
  - discriminate.
  - reflexivity.
  - reflexivity.
Defined.

(* ================================================================== *)
(** * Properties of FindBestMatchesRANSAC *)

Lemma np_index_in_range {A} (l : list A) i :
  (0 <= i < Z.of_nat (length l))%Z -> is_ok (np_index l i) = true.
Proof.
  intros H. unfold np_index.
  destruct (Z.leb_spec 0 i); [|lia].
  unfold py_index. destruct (nth_error l (Z.to_nat i)) eqn:E; [reflexivity|].
  apply nth_error_None in E. lia.
Qed.

Lemma match_rows_in_range keypoints1 keypoints2 (m : match_pair) :
  (0 <= fst m < Z.of_nat (length keypoints1))%Z ->
  (0 <= snd m < Z.of_nat (length keypoints2))%Z ->
  is_ok (match_rows keypoints1 keypoints2 m) = true.
Proof.
  intros H1 H2. unfold match_rows.
  pose proof (np_index_in_range keypoints1 (fst m) H1) as O1.
  pose proof (np_index_in_range keypoints2 (snd m) H2) as O2.
  destruct (np_index keypoints1 (fst m)); [|discriminate].
  destruct (np_index keypoints2 (snd m)); [|discriminate]. reflexivity.
Qed.

Lemma filterM_runs {A} (f : A -> result bool) xs :
  (forall x, In x xs -> is_ok (f x) = true) -> is_ok (filterM f xs) = true.
Proof.
  induction xs as [|a xs IH]; intros H; cbn [filterM]; [reflexivity|].
  pose proof (H a (or_introl eq_refl)) as Ha.
  destruct (f a); [|discriminate]. cbn [bind].
  assert (O : is_ok (filterM f xs) = true) by (apply IH; intros; apply H; right; assumption).
  destruct (filterM f xs); [reflexivity|discriminate].
Qed.

Lemma consensus_set_runs matched_pairs keypoints1 keypoints2
      orient_agreement scale_agreement sel :
  rows_exist keypoints1 keypoints2 matched_pairs = true ->
  In sel matched_pairs ->
  is_ok (consensus_set matched_pairs keypoints1 keypoints2
                       orient_agreement scale_agreement sel) = true.
Proof.
  intros R Hin. unfold rows_exist in R. rewrite forallb_forall in R.
  unfold consensus_set. pose proof (R sel Hin) as Rs.
  destruct (match_rows keypoints1 keypoints2 sel) as [s|]; [|discriminate]. cbn [bind].
  apply filterM_runs. intros m Hm. specialize (R m Hm).
  destruct (match_rows keypoints1 keypoints2 m); [reflexivity|discriminate].
Qed.

(** X18: the pipeline passes the matcher's error on, and needs at least 10
    matches for the filter's sample: with fewer than 10 descriptors in image
    1 the matcher returns fewer than 10 pairs, so the pipeline never
    returns: it raises the matcher's error or the sampler's [ValueError]. *)
Theorem FindBestMatchesRANSAC_few_descriptors
        acos draw keypoints1 keypoints2 descriptors1 descriptors2
        threshold orient_agreement scale_agreement :
  length descriptors1 < 10 ->
  match FindBestMatches acos descriptors1 descriptors2 threshold with
  | Raise e =>
      FindBestMatchesRANSAC acos draw keypoints1 keypoints2 descriptors1 descriptors2
                            threshold orient_agreement scale_agreement = Raise e
  | Ok _ =>
      FindBestMatchesRANSAC acos draw keypoints1 keypoints2 descriptors1 descriptors2
                            threshold orient_agreement scale_agreement = Raise ValueError
  end.
Proof.
  intros Few. unfold FindBestMatchesRANSAC.
  destruct (FindBestMatches acos descriptors1 descriptors2 threshold) as [mp|e] eqn:M;
    cbn [bind]; [|reflexivity].
  unfold FindBestMatches, enumerate in M.
  destruct (match_loop_indices _ _ _ _ _ _ M) as (_ & L & _).
  unfold RANSACFilter. rewrite random_sample_short by lia. reflexivity.
Qed.

Lemma FindBestMatchesRANSAC_few_descriptors_witness :
  FindBestMatches acos_table example_descriptors1 example_descriptors2 0.75
  = Ok [(0, 0); (2, 1)]%Z /\
  FindBestMatchesRANSAC acos_table [0; 1] example_keypoints1 example_keypoints2
                        example_descriptors1 example_descriptors2 0.75 30 0.5
  = Raise ValueError.
Proof.
  split; [reflexivity|].
  exact (FindBestMatchesRANSAC_few_descriptors acos_table [0; 1]
           example_keypoints1 example_keypoints2
           example_descriptors1 example_descriptors2 0.75 30 0.5
           ltac:(simpl; lia)).
Defined.

(** X19: the matcher's pairs always address rows of keypoint arrays that
    are at least as long as the descriptor arrays.  So when the matcher
    returns at least 10 pairs the pipeline returns too, and what it returns
    is the matcher's list with some pairs left out. *)
Theorem FindBestMatchesRANSAC_runs
        acos draw keypoints1 keypoints2 descriptors1 descriptors2
        threshold orient_agreement scale_agreement matched_pairs :
  FindBestMatches acos descriptors1 descriptors2 threshold = Ok matched_pairs ->
  10 <= length matched_pairs ->
  length descriptors1 <= length keypoints1 ->
  length descriptors2 <= length keypoints2 ->
  exists matched_pairs_ransac,
    FindBestMatchesRANSAC acos draw keypoints1 keypoints2 descriptors1 descriptors2
                          threshold orient_agreement scale_agreement
    = Ok matched_pairs_ransac /\
    subseq matched_pairs_ransac matched_pairs.
Proof.
  intros M Ten K1 K2. unfold FindBestMatchesRANSAC. rewrite M. cbn [bind].
  unfold FindBestMatches, enumerate in M.
  destruct (match_loop_indices _ _ _ _ _ _ M) as (_ & _ & Range).
  assert (R : rows_exist keypoints1 keypoints2 matched_pairs = true).
  { unfold rows_exist. apply forallb_forall. intros m Hm.
    destruct (Range m Hm) as [R1 R2]. apply match_rows_in_range; cbn in *; lia. }
  unfold RANSACFilter. rewrite random_sample_enough by assumption. cbn [bind].
  assert (O : is_ok (filter_loop matched_pairs keypoints1 keypoints2 orient_agreement
                       scale_agreement (pick matched_pairs draw) []) = true).
  { apply filter_loop_ok. intros sel Hsel. apply consensus_set_runs; [exact R|].
    eapply pick_In; eauto. }
  destruct (filter_loop _ _ _ _ _ _ _) as [res|] eqn:E; [|discriminate].
  exists res. split; [reflexivity|].
  eapply filter_loop_subseq; eauto. apply subseq_nil_l.
Qed.

Lemma FindBestMatchesRANSAC_runs_witness :
  FindBestMatches acos_table ten_descriptors basis_descriptors 0.75
  = Ok [(0, 0); (1, 1); (2, 2); (3, 3); (4, 0); (5, 1); (6, 2); (7, 3); (8, 0); (9, 1)]%Z /\
  exists matched_pairs_ransac,
    FindBestMatchesRANSAC acos_table ten_draw example_keypoints1 example_keypoints2
                          ten_descriptors basis_descriptors 0.75 30 0.5
    = Ok matched_pairs_ransac /\
    subseq matched_pairs_ransac
           [(0, 0); (1, 1); (2, 2); (3, 3); (4, 0); (5, 1); (6, 2); (7, 3); (8, 0); (9, 1)]%Z.
Proof.
  split; [reflexivity|].
  apply (FindBestMatchesRANSAC_runs acos_table ten_draw
           example_keypoints1 example_keypoints2 ten_descriptors basis_descriptors
           0.75 30 0.5).
  - reflexivity.
  - simpl. lia.
  - simpl. lia.
  - simpl. lia.
Defined.
